(** * Password-Cracker: candidate generation and search

    A shallow embedding of [password_cracker.py]: the candidate generators
    ([candidate_variants], [generate_from_pattern], [generate_by_length],
    [read_wordlist]), the cap [limited], the search loop [crack_target] with
    its [seen] set, the format testers behind [try_password], and
    [determine_target_type].

    Python values are modelled as follows.
    - A [str] is the list of its Unicode code points.
    - A generator is a [stream]: the finite list of the values it yields,
      followed by normal exhaustion or by the exception it raises.
    - What lies outside the program is a [World]: the outcome of every
      library or command call on the target, and whether memory is granted
      for the tables of [itertools.product(charset, repeat=length)], whose
      size is the number the user gives.  Memory for data whose size
      follows that of the inputs is taken as granted.
    - A function that can raise returns a [result].
    - A [set] is a [gset]; a [dict] is a [gmap]. *)

From Stdlib Require Import ZArith NArith Ascii String.
From stdpp Require Import base decidable option numbers list sorting gmap sets.

Local Open Scope Z_scope.

(** ** Python values *)

Module Py.

(** A character is a Unicode code point. *)
Abbreviation char := N (only parsing).
Abbreviation str := (list N) (only parsing).

(** An ASCII literal as a [str]. *)
Definition u (s : string) : str :=
  map N_of_ascii (list_ascii_of_string s).
Arguments u s%_string.

(** The exception classes the program names; [OverflowError] and
    [MemoryError], which [itertools.product] raises; [DependencyError], by
    which PyPDF2 reports a missing cryptography module; [OtherException]
    for any other subclass of [Exception]; and [NotAnException] for what
    derives from [BaseException] only ([KeyboardInterrupt], [SystemExit]). *)
Inductive exn_class :=
| ValueError | RuntimeError | FileNotFoundError
| BadZipFile | LargeZipFile
| BadRarFile | RarWrongPassword | RarCRCError | RarCannotExec
| PasswordRequired | Bad7zFile | UnsupportedCompressionMethodError
| OverflowError | MemoryError | DependencyError
| OtherException | NotAnException.

#[export] Instance exn_class_eq_dec : EqDecision exn_class.
Proof. solve_decision. Defined.

Record exn := Exn { exn_cls : exn_class; exn_msg : string }.

(** [except Exception] *)
Definition is_Exception (e : exn) : bool :=
  match exn_cls e with NotAnException => false | _ => true end.

Inductive result (A : Type) :=
| Ok (a : A)
| Raise (e : exn).
Arguments Ok {A} a.
Arguments Raise {A} e.

Definition bind {A B} (r : result A) (k : A -> result B) : result B :=
  match r with Ok a => k a | Raise e => Raise e end.

(** Truthiness of a [str] and of an optional [str]. *)
Definition truthy_str (s : str) : bool :=
  match s with [] => false | _ => true end.
Definition truthy_opt_str (s : option str) : bool :=
  match s with Some s => truthy_str s | None => false end.

(** Iterating a [str] yields its one-character strings; [join] is
    [str.join] on the empty separator. *)
Definition chars (s : str) : list str := map (fun c => [c]) s.
Definition join (parts : list str) : str := concat parts.

(** [<] and [<=] on [str]: lexicographic by code point. *)
Fixpoint str_leb (a b : str) : bool :=
  match a, b with
  | [], _ => true
  | _ :: _, [] => false
  | x :: a', y :: b' =>
      if (x <? y)%N then true
      else if (y <? x)%N then false
      else str_leb a' b'
  end.
Definition str_le (a b : str) : Prop := str_leb a b = true.

#[export] Instance str_le_dec : RelDecision str_le.
Proof. intros a b. unfold str_le. apply _. Defined.

(** [sorted(s)] for a set of strings. *)
Definition sorted (s : gset str) : list str :=
  merge_sort str_le (elements s).

End Py.
Export Py.

Notation "x <- r ;; k" := (bind r (fun x => k))
  (at level 100, r at next level, right associativity).

(** ** Character classes of [str]

    [isalpha], [isdigit], [swapcase], [lower] and [int] follow CPython's
    Unicode tables on U+0000..U+00FF (Basic Latin and Latin-1 Supplement).
    Above U+00FF the tables are not reproduced: a code point there is taken
    as caseless, neither letter nor digit, except for the two code points
    whose lowercase form contains an ASCII letter (U+0130 and U+212A), which
    [lower] maps as Python does.  [isspace] is complete. *)

Module PyStr.

Definition in_range (lo hi c : N) : bool := ((lo <=? c) && (c <=? hi))%N.

Definition isupper (c : char) : bool :=
  in_range 65 90 c || in_range 192 214 c || in_range 216 222 c.

Definition islower (c : char) : bool :=
  in_range 97 122 c || (c =? 170)%N || (c =? 181)%N || (c =? 186)%N
  || in_range 223 246 c || in_range 248 255 c.

Definition isalpha (c : char) : bool := isupper c || islower c.

Definition isdecimal (c : char) : bool := in_range 48 57 c.

(** [isdigit] also accepts the superscripts U+00B2, U+00B3 and U+00B9. *)
Definition isdigit (c : char) : bool :=
  isdecimal c || (c =? 178)%N || (c =? 179)%N || (c =? 185)%N.

(** [int(c)] for a one-character string: only decimal digits parse. *)
Definition int (c : char) : result Z :=
  if isdecimal c then Ok (Z.of_N c - 48)
  else Raise (Exn ValueError "invalid literal for int() with base 10").

(** [str(n)] for [0 <= n <= 9], the only values it is applied to. *)
Definition str_of_digit (n : Z) : str := [Z.to_N (48 + n)].

(** Full uppercase mapping of a lowercase character. *)
Definition upper_full (c : char) : str :=
  if (c =? 223)%N then [83; 83]%N            (* U+00DF -> "SS" *)
  else if (c =? 181)%N then [924]%N          (* U+00B5 -> U+039C *)
  else if (c =? 255)%N then [376]%N          (* U+00FF -> U+0178 *)
  else if (c =? 170)%N || (c =? 186)%N then [c]
  else [c - 32]%N.

Definition lower_full (c : char) : str :=
  if isupper c then [c + 32]%N
  else if (c =? 304)%N then [105; 775]%N     (* U+0130 -> "i" U+0307 *)
  else if (c =? 8490)%N then [107]%N         (* U+212A -> "k" *)
  else [c].

(** [c.swapcase()] for a one-character string. *)
Definition swapcase (c : char) : str :=
  if isupper c then [c + 32]%N
  else if islower c then upper_full c
  else [c].

(** [s.lower()] *)
Definition lower (s : str) : str := concat (map lower_full s).

Definition isspace (c : char) : bool :=
  in_range 9 13 c || in_range 28 32 c || (c =? 133)%N || (c =? 160)%N
  || (c =? 5760)%N || in_range 8192 8202 c || (c =? 8232)%N
  || (c =? 8233)%N || (c =? 8239)%N || (c =? 8287)%N || (c =? 12288)%N.

Fixpoint lstrip (s : str) : str :=
  match s with
  | c :: s' => if isspace c then lstrip s' else s
  | [] => []
  end.

(** [s.strip()] *)
Definition strip (s : str) : str :=
  reverse (lstrip (reverse (lstrip s))).

End PyStr.

(** ** [itertools.product] *)

Module Itertools.

(** [product] of a list of pools: the rightmost pool advances fastest. *)
Fixpoint product {A} (pools : list (list A)) : list (list A) :=
  match pools with
  | [] => [[]]
  | p :: ps => flat_map (fun x => map (cons x) (product ps)) p
  end.

End Itertools.

(** ** The environment

    What the libraries and external commands do with one password is the
    environment's: each field gives the outcome of the protected block of
    one tester, a value or the exception raised inside it.  So is memory:
    [allocates n] tells whether the machine grants [itertools.product] its
    tables of [n] slots. *)

Record World := {
  rarfile_imported : bool;                 (* [rarfile is not None] *)
  py7zr_imported : bool;                   (* [py7zr is not None] *)
  platform_system : string;
  pdf_decrypt : str -> result bool;        (* [True] when not encrypted *)
  zip_read : str -> result unit;
  rar_read : str -> result unit;
  sevenzip_read : str -> result unit;
  hdiutil_attach : str -> result bool;     (* [False] on a non-zero exit *)
  run_7z_test : str -> result Z;           (* [proc.returncode] *)
  allocates : Z -> bool
}.

(** ** Generators *)

Record stream := Stream { items : list str; fault : option exn }.

Definition yields (l : list str) : stream := Stream l None.
Definition raises (e : exn) : stream := Stream [] (Some e).

Definition DEFAULT_CHARSET : str :=
  u "abcdefghijklmnopqrstuvwxyzABCDEFGHIJKLMNOPQRSTUVWXYZ0123456789".

Definition ascii_uppercase : str := u "ABCDEFGHIJKLMNOPQRSTUVWXYZ".
Definition ascii_lowercase : str := u "abcdefghijklmnopqrstuvwxyz".
Definition ascii_letters : str := ascii_lowercase ++ ascii_uppercase.
Definition digits : str := u "0123456789".

Definition PATTERN_CHARSETS : gmap char str :=
  list_to_map
    [ (65%N, ascii_uppercase);   (* "A" *)
      (97%N, ascii_lowercase);   (* "a" *)
      (49%N, digits);            (* "1" *)
      (48%N, digits);            (* "0" *)
      (35%N, digits);            (* "#" *)
      (63%N, ascii_letters);     (* "?" *)
      (42%N, DEFAULT_CHARSET) ]. (* "*" *)

Definition substitutions : gmap char str :=
  list_to_map
    [ (48%N, u "oO"); (49%N, u "lLI!"); (51%N, u "eE");
      (53%N, u "sS"); (55%N, u "tT"); (56%N, u "B") ].

(** The option set of one seed character, before sorting. *)
Definition options_of (c : char) : result (gset str) :=
  let options : gset str := {[ [c] ]} in
  let options :=
    if PyStr.isalpha c then options ∪ {[ PyStr.swapcase c ]} else options in
  options <-
    (if PyStr.isdigit c then
       d <- PyStr.int c ;;
       let prev_digit := PyStr.str_of_digit ((d - 1) mod 10) in
       let next_digit := PyStr.str_of_digit ((d + 1) mod 10) in
       Ok (options ∪ {[ prev_digit; next_digit ]})
     else Ok options) ;;
  Ok (foldl (fun (o : gset str) repl => o ∪ {[ repl ]}) options
        (chars (default [] (substitutions !! c)))).

Fixpoint build_pools (seed : str) : result (list (list str)) :=
  match seed with
  | [] => Ok []
  | c :: rest =>
      options <- options_of c ;;
      pools <- build_pools rest ;;
      Ok (sorted options :: pools)
  end.

Definition candidate_variants (seed : str) : stream :=
  match build_pools seed with
  | Ok pools => yields (map join (Itertools.product pools))
  | Raise e => raises e
  end.

Definition char_sets (pattern order : str) : list str :=
  map (fun c =>
         match PATTERN_CHARSETS !! c with
         | None => [c]
         | Some charset =>
             if decide (order = u "asc") then charset else reverse charset
         end) pattern.

Definition generate_from_pattern (pattern order : str) : stream :=
  yields (map join (Itertools.product (map chars (char_sets pattern order)))).

(** [itertools.product(charset, repeat=length)] takes [repeat] as a C
    [ssize_t], refuses a negative one, refuses one whose table of indices
    would exceed [PY_SSIZE_T_MAX] bytes, and then allocates the tables. *)
Definition PY_SSIZE_T_MAX : Z := 2 ^ 63 - 1.

Definition generate_by_length (w : World) (length : Z) (charset : str)
  : stream :=
  if (length <? - PY_SSIZE_T_MAX - 1) || (PY_SSIZE_T_MAX <? length) then
    raises (Exn OverflowError "Python int too large to convert to C ssize_t")
  else if length <? 0 then
    raises (Exn ValueError "repeat argument cannot be negative")
  else if length =? 0 then yields [[]]
  else if PY_SSIZE_T_MAX / 8 / length <? 1 then
    raises (Exn OverflowError "repeat argument too large")
  else if negb (allocates w length) then raises (Exn MemoryError "")
  else
    yields (map join
              (Itertools.product (replicate (Z.to_nat length) (chars charset)))).

(** [limited]: [enumerate] pulls one more value than it passes on, so a
    generator that yields at most [limit] values is run to its end. *)
Definition limited (generator : stream) (limit : option Z) : stream :=
  match limit with
  | None => generator
  | Some limit =>
      let n := Z.to_nat limit in
      if decide (n < length (items generator))%nat
      then yields (take n (items generator))
      else generator
  end.

(** ** Target type *)

Record Path := { suffix : str; exists_ : bool }.

Definition TARGET_TYPE_MAP : gmap str str :=
  list_to_map
    [ (u ".pdf", u "pdf"); (u ".zip", u "zip"); (u ".rar", u "rar");
      (u ".7z", u "7z"); (u ".iso", u "iso") ].

Definition SUPPORTED_TYPES : list str :=
  [u "7z"; u "iso"; u "pdf"; u "rar"; u "zip"].

Definition determine_target_type (path : Path) (forced : option str) : str :=
  match forced with
  | Some forced' =>
      if truthy_str forced' then forced'
      else default (u "pdf") (TARGET_TYPE_MAP !! PyStr.lower (suffix path))
  | None => default (u "pdf") (TARGET_TYPE_MAP !! PyStr.lower (suffix path))
  end.

(** ** The format testers *)

Definition isinstance (e : exn) (classes : list exn_class) : bool :=
  bool_decide (exn_cls e ∈ classes).

Definition try_pdf_password (w : World) (password : str) : result bool :=
  match pdf_decrypt w password with
  | Ok b => Ok b
  | Raise e => if is_Exception e then Ok false else Raise e
  end.

Definition try_zip_password (w : World) (password : str) : result bool :=
  match zip_read w password with
  | Ok _ => Ok true
  | Raise e =>
      if isinstance e [RuntimeError; BadZipFile; LargeZipFile] then Ok false
      else if is_Exception e then Ok false
      else Raise e
  end.

Definition try_rar_password (w : World) (password : str) : result bool :=
  if negb (rarfile_imported w) then
    Raise (Exn RuntimeError "rarfile dependency missing. Install via pip.")
  else
    match rar_read w password with
    | Ok _ => Ok true
    | Raise e =>
        if isinstance e [BadRarFile; RarWrongPassword; RarCRCError]
        then Ok false
        else if isinstance e [RarCannotExec] then
          Raise (Exn RuntimeError
                   "rarfile requires 'unrar' or 'rar' command to be installed.")
        else if is_Exception e then Ok false
        else Raise e
    end.

Definition try_7z_password (w : World) (password : str) : result bool :=
  if negb (py7zr_imported w) then
    Raise (Exn RuntimeError "py7zr dependency missing. Install via pip.")
  else
    match sevenzip_read w password with
    | Ok _ => Ok true
    | Raise e =>
        if isinstance e [PasswordRequired; Bad7zFile] then Ok false
        else if isinstance e [UnsupportedCompressionMethodError] then Ok false
        else if isinstance e [RuntimeError] then Ok false
        else Raise e
    end.

Definition try_iso_hdiutil (w : World) (password : str) : result bool :=
  match hdiutil_attach w password with
  | Ok b => Ok b
  | Raise e =>
      if isinstance e [FileNotFoundError] then
        Raise (Exn RuntimeError
                 "hdiutil not found. ISO/DMG testing requires macOS.")
      else if is_Exception e then Ok false
      else Raise e
  end.

Definition try_iso_with_7z_cli (w : World) (password : str) : result bool :=
  match run_7z_test w password with
  | Ok returncode => Ok (returncode =? 0)
  | Raise e =>
      if isinstance e [FileNotFoundError] then
        Raise (Exn RuntimeError
                 "7z executable not found. Install p7zip-full / 7-Zip to test ISO passwords.")
      else Raise e
  end.

Definition try_iso_password (w : World) (password : str) : result bool :=
  if String.eqb (platform_system w) "Darwin"
  then try_iso_hdiutil w password
  else try_iso_with_7z_cli w password.

Definition try_password (w : World) (password target_type : str)
  : result bool :=
  if decide (target_type = u "pdf") then try_pdf_password w password
  else if decide (target_type = u "zip") then try_zip_password w password
  else if decide (target_type = u "rar") then try_rar_password w password
  else if decide (target_type = u "7z") then try_7z_password w password
  else if decide (target_type = u "iso") then try_iso_password w password
  else Raise (Exn ValueError "Unsupported target type").

(** ** The search *)

Module Args.
(** The word-list path with what the file system holds there: whether it
    exists, the lines the open file yields, and the exception that opening
    or reading it raises after these lines, if any. *)
Record wordlist_file := {
  wl_exists : bool;
  wl_lines : list str;
  wl_error : option exn
}.

Record t := {
  target : Path;
  pattern : option str;
  pattern_prefix : str;
  pattern_suffix : str;
  pattern_order : str;
  length : option Z;
  charset : str;
  seed : option str;
  wordlist : option wordlist_file;
  max_candidates : option Z;
  seed_variants : option Z;
  type : option str
}.
End Args.

Definition read_wordlist (path : Args.wordlist_file) : stream :=
  Stream
    (filter (fun word => truthy_str word = true)
       (map PyStr.strip (Args.wl_lines path)))
    (Args.wl_error path).

(** The variables the loop of [crack_target] updates, with the passwords
    handed to [try_password] (oldest first) and the progress lines. *)
Record run := {
  seen : gset str;
  attempted : nat;
  tested : list str;
  progress : list (nat * str)
}.

Definition start : run :=
  {| seen := ∅; attempted := 0; tested := []; progress := [] |}.

Definition log_attempt (password : str) (r : run) : run :=
  let attempted := S (attempted r) in
  {| seen := seen r;
     attempted := attempted;
     tested := tested r;
     progress :=
       if (attempted mod 500 =? 0)%nat
       then progress r ++ [(attempted, password)] else progress r |}.

Definition candidate_streams (w : World) (args : Args.t) : list stream :=
  let candidate_streams := [] in
  let candidate_streams :=
    match Args.seed args with
    | Some seed =>
        if truthy_str seed then
          candidate_streams ++
            [limited (candidate_variants seed) (Args.seed_variants args)]
        else candidate_streams
    | None => candidate_streams
    end in
  let pattern_spec : option str :=
    if truthy_opt_str (Args.pattern args)
       || truthy_str (Args.pattern_prefix args)
       || truthy_str (Args.pattern_suffix args)
    then Some (Args.pattern_prefix args
                 ++ (if truthy_opt_str (Args.pattern args)
                     then default [] (Args.pattern args) else [])
                 ++ Args.pattern_suffix args)
    else None in
  let candidate_streams :=
    if truthy_opt_str pattern_spec then
      candidate_streams ++
        [limited (generate_from_pattern (default [] pattern_spec)
                    (Args.pattern_order args))
           (Args.max_candidates args)]
    else
      match Args.length args with
      | Some length =>
          if negb (length =? 0) then
            candidate_streams ++
              [limited (generate_by_length w length (Args.charset args))
                 (Args.max_candidates args)]
          else candidate_streams
      | None => candidate_streams
      end in
  match Args.wordlist args with
  | Some wordlist =>
      if Args.wl_exists wordlist
      then candidate_streams ++ [read_wordlist wordlist]
      else candidate_streams
  | None => candidate_streams
  end.

(** The inner [for] over the values one stream yields: [None] when the loop
    runs to the end of the values, otherwise how [crack_target] ends. *)
Fixpoint scan (test : str -> result bool) (passwords : list str) (r : run)
  : run * option (result str) :=
  match passwords with
  | [] => (r, None)
  | password :: rest =>
      if decide (password ∈ seen r) then scan test rest r
      else
        let r := log_attempt password
                   {| seen := seen r ∪ {[ password ]};
                      attempted := attempted r;
                      tested := tested r ++ [password];
                      progress := progress r |} in
        match test password with
        | Ok true => (r, Some (Ok password))
        | Ok false => scan test rest r
        | Raise e => (r, Some (Raise e))
        end
  end.

(** The outer [for] over the streams. *)
Fixpoint search (test : str -> result bool) (streams : list stream) (r : run)
  : run * result (option str) :=
  match streams with
  | [] => (r, Ok None)
  | stream :: rest =>
      match scan test (items stream) r with
      | (r, Some (Ok password)) => (r, Ok (Some password))
      | (r, Some (Raise e)) => (r, Raise e)
      | (r, None) =>
          match fault stream with
          | Some e => (r, Raise e)
          | None => search test rest r
          end
      end
  end.

Definition crack_target_run (w : World) (target_type : str) (args : Args.t)
  : run * result (option str) :=
  search (fun password => try_password w password target_type)
    (candidate_streams w args) start.

Definition crack_target (w : World) (target_type : str) (args : Args.t)
  : result (option str) :=
  snd (crack_target_run w target_type args).

(** [main] after [parse_args]: the exit status and what is written to
    [args.output]; an exception of [crack_target] is not caught. *)
Definition main (w : World) (args : Args.t) : result (Z * option str) :=
  if negb (exists_ (Args.target args)) then Ok (2, None)
  else
    let target_type :=
      determine_target_type (Args.target args) (Args.type args) in
    password <- crack_target w target_type args ;;
    if truthy_opt_str password then Ok (0, password) else Ok (1, None).

(** The condition under which [main] prints the warning that no
    generation strategy was requested. *)
Definition no_strategy_warning (args : Args.t) : bool :=
  negb (truthy_opt_str (Args.pattern args))
  && negb (match Args.length args with
           | Some n => negb (n =? 0)
           | None => false
           end)
  && negb (match Args.wordlist args with Some _ => true | None => false end)
  && negb (truthy_opt_str (Args.seed args)).

(** * Specifications

    The definitions below state what the program is specified to do; the
    properties compare the program with them. *)

(** The pattern expander in the words of its specification: a token is a
    literal or a symbolic class; descending order reverses the set of a
    symbolic token and leaves a literal alone. *)
Module PatternSpec.

Inductive token :=
| Literal (c : char)
| Symbolic (charset : str).

Definition resolve (c : char) : token :=
  match PATTERN_CHARSETS !! c with
  | Some charset => Symbolic charset
  | None => Literal c
  end.

Definition token_set (descending : bool) (t : token) : str :=
  match t with
  | Literal c => [c]
  | Symbolic charset => if descending then reverse charset else charset
  end.

Definition size (t : token) : nat := length (token_set false t).

Definition expand (descending : bool) (pattern : str) : list str :=
  Itertools.product (map (fun c => token_set descending (resolve c)) pattern).

End PatternSpec.

(** The order a charset induces: a character comes before another when its
    position in the charset is smaller, and strings compare character by
    character from the left. *)
Module Lex.

Fixpoint index_of (c : char) (charset : str) : nat :=
  match charset with
  | [] => 0
  | x :: rest => if decide (c = x) then 0 else S (index_of c rest)
  end.

Definition char_lt (charset : str) (x y : char) : Prop :=
  (index_of x charset < index_of y charset)%nat.

Fixpoint lt (charset : str) (a b : str) : Prop :=
  match a, b with
  | x :: a', y :: b' => char_lt charset x y \/ (x = y /\ lt charset a' b')
  | [], _ :: _ => True
  | _, [] => False
  end.

End Lex.

(** The strategies in the order of their priority, each with its own cap:
    seed variants, then pattern expansion, then (only without a pattern)
    fixed-length brute force, then the word list, which has no cap. *)
Module Priority.

Definition pattern_supplied (args : Args.t) : bool :=
  truthy_opt_str (Args.pattern args)
  || truthy_str (Args.pattern_prefix args)
  || truthy_str (Args.pattern_suffix args).

Definition pattern_spec (args : Args.t) : str :=
  Args.pattern_prefix args ++ default [] (Args.pattern args)
    ++ Args.pattern_suffix args.

Definition seed_source (args : Args.t) : list stream :=
  match Args.seed args with
  | Some ((_ :: _) as seed) =>
      [limited (candidate_variants seed) (Args.seed_variants args)]
  | _ => []
  end.

Definition pattern_source (args : Args.t) : list stream :=
  if pattern_supplied args then
    [limited (generate_from_pattern (pattern_spec args)
                (Args.pattern_order args))
       (Args.max_candidates args)]
  else [].

Definition length_source (w : World) (args : Args.t) : list stream :=
  if pattern_supplied args then []
  else
    match Args.length args with
    | Some n =>
        if n =? 0 then []
        else [limited (generate_by_length w n (Args.charset args))
                (Args.max_candidates args)]
    | None => []
    end.

Definition wordlist_source (args : Args.t) : list stream :=
  match Args.wordlist args with
  | Some file =>
      if Args.wl_exists file then [read_wordlist file]
      else []
  | None => []
  end.

Definition sources (w : World) (args : Args.t) : list stream :=
  seed_source args ++ pattern_source args ++ length_source w args
    ++ wordlist_source args.

End Priority.

(** What the search is specified to return, without the [seen] set. *)
Module SearchSpec.

(** The streams in order as one stream; it ends with the first stream
    that raises. *)
Fixpoint merged (streams : list stream) : stream :=
  match streams with
  | [] => yields []
  | s :: rest =>
      match fault s with
      | Some e => Stream (items s) (Some e)
      | None =>
          Stream (items s ++ items (merged rest)) (fault (merged rest))
      end
  end.

(** The first candidate on which the tester does not return [False]. *)
Fixpoint first_hit (test : str -> result bool) (candidates : list str)
  : option (result str) :=
  match candidates with
  | [] => None
  | p :: rest =>
      match test p with
      | Ok true => Some (Ok p)
      | Ok false => first_hit test rest
      | Raise e => Some (Raise e)
      end
  end.

Definition outcome (test : str -> result bool) (s : stream)
  : result (option str) :=
  match first_hit test (items s) with
  | Some (Ok p) => Ok (Some p)
  | Some (Raise e) => Raise e
  | None =>
      match fault s with
      | Some e => Raise e
      | None => Ok None
      end
  end.

End SearchSpec.

(** Every password in [seen] was tested and rejected. *)
Definition rejected (test : str -> result bool) (r : run) : Prop :=
  forall q, q ∈ seen r -> test q = Ok false.

(** [seen], [attempted] and the tested passwords agree. *)
Definition consistent (r : run) : Prop :=
  NoDup (tested r)
  /\ attempted r = length (tested r)
  /\ seen r = list_to_set (tested r).

(** The specified check of the configuration: a negative length, or an
    empty charset with a positive length, is an error that reaches the
    caller before any candidate is tested. *)
Module ConfigSpec.

Definition config_error (args : Args.t) : Prop :=
  match Args.length args with
  | Some n => n < 0 \/ (0 < n /\ Args.charset args = [])
  | None => False
  end.

Definition errors_reported : Prop :=
  forall (w : World) (target_type : str) (args : Args.t),
    config_error args ->
    exists e, crack_target_run w target_type args = (start, Raise e).

End ConfigSpec.

(** A tool or library that testing [password] on a target of the given
    type needs is missing, and the error that reports it. *)
Inductive tool_missing (w : World) (password : str) : str -> exn -> Prop :=
| rarfile_missing :
    rarfile_imported w = false ->
    tool_missing w password (u "rar")
      (Exn RuntimeError "rarfile dependency missing. Install via pip.")
| unrar_missing e :
    rarfile_imported w = true ->
    rar_read w password = Raise e ->
    exn_cls e = RarCannotExec ->
    tool_missing w password (u "rar")
      (Exn RuntimeError
         "rarfile requires 'unrar' or 'rar' command to be installed.")
| py7zr_missing :
    py7zr_imported w = false ->
    tool_missing w password (u "7z")
      (Exn RuntimeError "py7zr dependency missing. Install via pip.")
| sevenzip_missing e :
    platform_system w <> "Darwin"%string ->
    run_7z_test w password = Raise e ->
    exn_cls e = FileNotFoundError ->
    tool_missing w password (u "iso")
      (Exn RuntimeError
         "7z executable not found. Install p7zip-full / 7-Zip to test ISO passwords.")
| hdiutil_missing e :
    platform_system w = "Darwin"%string ->
    hdiutil_attach w password = Raise e ->
    exn_cls e = FileNotFoundError ->
    tool_missing w password (u "iso")
      (Exn RuntimeError "hdiutil not found. ISO/DMG testing requires macOS.").

(** The option set of an ASCII character holds the character and only
    one-character strings. *)
Definition ascii_options_ok (c : char) : bool :=
  match options_of c with
  | Ok options =>
      bool_decide ([c] ∈ options)
      && forallb (fun s => (length s =? 1)%nat) (elements options)
  | Raise _ => false
  end.

(** The progress lines a run prints: one per 500 attempts, with the count
    and the password just tried. *)
Definition cadence (tested : list str) : list (nat * str) :=
  filter (fun line => (line.1 mod 500 =? 0)%nat = true)
    (imap (fun i password => (S i, password)) tested).

(** ** Sample environments and configurations *)

Module Sample.

(** A PDF that opens with [secret]; every tool is installed, and tables
    of up to a million slots are granted. *)
Definition world (secret : str) : World :=
  {| rarfile_imported := true;
     py7zr_imported := true;
     platform_system := "Linux";
     pdf_decrypt := fun p => Ok (bool_decide (p = secret));
     zip_read := fun _ => Raise (Exn BadZipFile "");
     rar_read := fun _ => Raise (Exn BadRarFile "");
     sevenzip_read := fun _ => Raise (Exn Bad7zFile "");
     hdiutil_attach := fun _ => Ok false;
     run_7z_test := fun _ => Ok 2;
     allocates := fun n => n <=? 1000000 |}.

(** The same machine without the [rarfile] module. *)
Definition world_without_rarfile : World :=
  {| rarfile_imported := false;
     py7zr_imported := true;
     platform_system := "Linux";
     pdf_decrypt := fun _ => Ok false;
     zip_read := fun _ => Raise (Exn BadZipFile "");
     rar_read := fun _ => Raise (Exn BadRarFile "");
     sevenzip_read := fun _ => Raise (Exn Bad7zFile "");
     hdiutil_attach := fun _ => Ok false;
     run_7z_test := fun _ => Ok 2;
     allocates := fun n => n <=? 1000000 |}.

(** The defaults of [parse_args] for a target with the given suffix. *)
Definition defaults (target_suffix : str) : Args.t :=
  {| Args.target := {| suffix := target_suffix; exists_ := true |};
     Args.pattern := None;
     Args.pattern_prefix := [];
     Args.pattern_suffix := [];
     Args.pattern_order := u "asc";
     Args.length := None;
     Args.charset := DEFAULT_CHARSET;
     Args.seed := None;
     Args.wordlist := None;
     Args.max_candidates := Some 250000;
     Args.seed_variants := Some 1000;
     Args.type := None |}.

Definition with_length (n : option Z) (charset : str) (a : Args.t) : Args.t :=
  {| Args.target := Args.target a;
     Args.pattern := Args.pattern a;
     Args.pattern_prefix := Args.pattern_prefix a;
     Args.pattern_suffix := Args.pattern_suffix a;
     Args.pattern_order := Args.pattern_order a;
     Args.length := n;
     Args.charset := charset;
     Args.seed := Args.seed a;
     Args.wordlist := Args.wordlist a;
     Args.max_candidates := Args.max_candidates a;
     Args.seed_variants := Args.seed_variants a;
     Args.type := Args.type a |}.

Definition with_seed (seed : str) (a : Args.t) : Args.t :=
  {| Args.target := Args.target a;
     Args.pattern := Args.pattern a;
     Args.pattern_prefix := Args.pattern_prefix a;
     Args.pattern_suffix := Args.pattern_suffix a;
     Args.pattern_order := Args.pattern_order a;
     Args.length := Args.length a;
     Args.charset := Args.charset a;
     Args.seed := Some seed;
     Args.wordlist := Args.wordlist a;
     Args.max_candidates := Args.max_candidates a;
     Args.seed_variants := Args.seed_variants a;
     Args.type := Args.type a |}.

Definition with_wordlist (lines : list str) (a : Args.t) : Args.t :=
  {| Args.target := Args.target a;
     Args.pattern := Args.pattern a;
     Args.pattern_prefix := Args.pattern_prefix a;
     Args.pattern_suffix := Args.pattern_suffix a;
     Args.pattern_order := Args.pattern_order a;
     Args.length := Args.length a;
     Args.charset := Args.charset a;
     Args.seed := Args.seed a;
     Args.wordlist :=
       Some {| Args.wl_exists := true; Args.wl_lines := lines;
               Args.wl_error := None |};
     Args.max_candidates := Args.max_candidates a;
     Args.seed_variants := Args.seed_variants a;
     Args.type := Args.type a |}.

End Sample.

(** A machine where reading the 7z archive fails inside the decompressor
    with an exception the tester does not name. *)
Definition world_decompressor_error : World :=
  {| rarfile_imported := true;
     py7zr_imported := true;
     platform_system := "Linux";
     pdf_decrypt := fun _ => Ok false;
     zip_read := fun _ => Raise (Exn BadZipFile "");
     rar_read := fun _ => Raise (Exn BadRarFile "");
     sevenzip_read := fun _ => Raise (Exn OtherException "Corrupt input data");
     hdiutil_attach := fun _ => Ok false;
     run_7z_test := fun _ => Ok 2;
     allocates := fun n => n <=? 1000000 |}.

(** A machine whose PyPDF2 lacks the cryptography module that the
    encryption of the target needs. *)
Definition world_without_pdf_crypto : World :=
  {| rarfile_imported := true;
     py7zr_imported := true;
     platform_system := "Linux";
     pdf_decrypt :=
       fun _ =>
         Raise (Exn DependencyError
                  "PyCryptodome is required for AES algorithm");
     zip_read := fun _ => Raise (Exn BadZipFile "");
     rar_read := fun _ => Raise (Exn BadRarFile "");
     sevenzip_read := fun _ => Raise (Exn Bad7zFile "");
     hdiutil_attach := fun _ => Ok false;
     run_7z_test := fun _ => Ok 2;
     allocates := fun n => n <=? 1000000 |}.

(** The testers as specified: whenever a tool or a library that a test
    needs is missing, [try_password] raises. *)
Module ToolSpec.

Inductive unavailable (w : World) (password : str) : str -> Prop :=
| reported target_type e :
    tool_missing w password target_type e ->
    unavailable w password target_type
| pdf_crypto_missing e :
    pdf_decrypt w password = Raise e ->
    exn_cls e = DependencyError ->
    unavailable w password (u "pdf")
| zip_codec_missing e :
    zip_read w password = Raise e ->
    e = Exn RuntimeError "Compression requires the (missing) zlib module" ->
    unavailable w password (u "zip")
| sevenzip_codec_missing e :
    py7zr_imported w = true ->
    sevenzip_read w password = Raise e ->
    exn_cls e = UnsupportedCompressionMethodError ->
    unavailable w password (u "7z").

Definition missing_tool_raises : Prop :=
  forall (w : World) (password target_type : str),
    unavailable w password target_type ->
    exists e, try_password w password target_type = Raise e.

End ToolSpec.

(** The brute-force generator as specified, and the lengths for which
    [itertools.product] builds its tables on a machine. *)
Module ByLengthSpec.

Definition feasible (w : World) (n : Z) : Prop :=
  0 <= n < 2 ^ 60 /\ (n = 0 \/ allocates w n = true).

Definition every_length_enumerated : Prop :=
  forall (w : World) (n : Z) (charset : str),
    0 <= n -> NoDup charset ->
    let out := generate_by_length w n charset in
    fault out = None
    /\ (forall s, s ∈ items out
                  <-> length s = Z.to_nat n /\ Forall (fun c => c ∈ charset) s).

End ByLengthSpec.

(** A configuration with the given literal prefix and pattern. *)
Definition with_pattern (prefix pattern : str) (a : Args.t) : Args.t :=
  {| Args.target := Args.target a;
     Args.pattern := Some pattern;
     Args.pattern_prefix := prefix;
     Args.pattern_suffix := Args.pattern_suffix a;
     Args.pattern_order := Args.pattern_order a;
     Args.length := Args.length a;
     Args.charset := Args.charset a;
     Args.seed := Args.seed a;
     Args.wordlist := Args.wordlist a;
     Args.max_candidates := Args.max_candidates a;
     Args.seed_variants := Args.seed_variants a;
     Args.type := Args.type a |}.

(** * Properties *)

(** ** Cartesian products *)

Section product.
Context {A : Type}.
Implicit Types (x : A) (l p : list A) (pools : list (list A)).

Lemma elem_of_flat_map {B} (f : A -> list B) (l : list A) (y : B) :
  y ∈ flat_map f l <-> exists x, x ∈ l /\ y ∈ f x.
Proof.
  induction l as [|a l IH]; simpl.
  - split; [by intros ?%elem_of_nil | by intros (x & ?%elem_of_nil & _)].
  - rewrite elem_of_app, IH. split.
    + intros [Hy | (x & Hx & Hy)]; [exists a | exists x];
        split; try done; [left | by right].
    + intros (x & Hx & Hy). apply elem_of_cons in Hx as [-> | Hx];
        [by left | right; eauto].
Qed.

Lemma NoDup_flat_map {B} (f : A -> list B) (l : list A) :
  NoDup l ->
  (forall x, x ∈ l -> NoDup (f x)) ->
  (forall x x' y, x ∈ l -> x' ∈ l -> y ∈ f x -> y ∈ f x' -> x = x') ->
  NoDup (flat_map f l).
Proof.
  induction 1 as [|x l Hx Hl IH]; intros Hf Hdisj; simpl.
  - constructor.
  - apply NoDup_app. split_and!.
    + apply Hf. left.
    + intros y Hy Hy'. apply elem_of_flat_map in Hy' as (x' & Hx' & Hy').
      assert (x = x') as <-; [|done].
      eapply Hdisj; eauto; [left | by right].
    + apply IH.
      * intros; apply Hf; by right.
      * intros ??? ?? ; eapply Hdisj; by right.
Qed.

Lemma length_product pools :
  length (Itertools.product pools) = foldr Nat.mul 1%nat (map length pools).
Proof.
  induction pools as [|p ps IH]; simpl; [done|].
  rewrite (flat_map_constant_length (c := length (Itertools.product ps))).
  - by rewrite IH.
  - intros x _. by rewrite length_map.
Qed.

Lemma elem_of_product l pools :
  l ∈ Itertools.product pools <-> Forall2 (fun x p => x ∈ p) l pools.
Proof.
  revert l. induction pools as [|p ps IH]; intros l; simpl.
  - rewrite list_elem_of_singleton. split.
    + intros ->. constructor.
    + by inversion 1.
  - rewrite elem_of_flat_map. split.
    + intros (x & Hx & Hl). apply list_elem_of_fmap in Hl as (t & -> & Ht).
      constructor; [done|]. by apply IH.
    + inversion 1 as [|x ? t ? Hx Ht]; subst. exists x. split; [done|].
      apply list_elem_of_fmap. exists t. split; [done|]. by apply IH.
Qed.

Lemma NoDup_product pools :
  Forall NoDup pools -> NoDup (Itertools.product pools).
Proof.
  induction 1 as [|p ps Hp Hps IH]; simpl.
  - apply NoDup_singleton.
  - apply NoDup_flat_map; [done| |].
    + intros x _. apply NoDup_fmap_2; [|done]. by intros ?? [=].
    + intros x x' y _ _ Hy Hy'.
      apply list_elem_of_fmap in Hy as (t & -> & _).
      apply list_elem_of_fmap in Hy' as (t' & [= -> _] & _). done.
Qed.

Lemma length_elem_of_product l pools :
  l ∈ Itertools.product pools -> length l = length pools.
Proof. rewrite elem_of_product. apply Forall2_length. Qed.

(** The first tuple takes the first member of every pool. *)
Lemma head_product pools :
  head (Itertools.product pools) = mapM head pools.
Proof.
  induction pools as [|p ps IH]; simpl; [done|].
  destruct p as [|x p]; simpl; [done|].
  rewrite <- IH. destruct (Itertools.product ps) as [|t ts]; simpl; [|done].
  clear. induction p as [|y p IH]; simpl; done.
Qed.

Lemma product_nil_pool n :
  Itertools.product (replicate (S n) (@nil A)) = [].
Proof. done. Qed.

End product.

Lemma join_chars (s : str) : join (chars s) = s.
Proof. unfold join, chars. induction s as [|c s IH]; simpl; by f_equal. Qed.

(** Joining the tuples of one-character strings gives the tuples of
    characters themselves. *)
Lemma join_product_chars (char_sets : list str) :
  map join (Itertools.product (map chars char_sets))
  = Itertools.product char_sets.
Proof.
  induction char_sets as [|cs css IH]; simpl; [done|].
  rewrite <- IH. clear IH. unfold chars at 1.
  induction cs as [|c cs IHcs]; simpl; [done|].
  rewrite map_app, IHcs. f_equal.
  rewrite !map_map. apply map_ext. intros t. done.
Qed.

(** ** Pattern expansion *)

Lemma PATTERN_CHARSETS_sets (c : char) (charset : str) :
  PATTERN_CHARSETS !! c = Some charset -> NoDup charset /\ charset <> [].
Proof.
  unfold PATTERN_CHARSETS. intros H%elem_of_list_to_map_2.
  repeat (apply elem_of_cons in H as [[= -> ->] | H];
          [split; [apply (bool_decide_unpack _); by vm_compute | done] |]).
  by apply elem_of_nil in H.
Qed.

Lemma token_set_NoDup descending c :
  NoDup (PatternSpec.token_set descending (PatternSpec.resolve c)).
Proof.
  unfold PatternSpec.resolve.
  destruct (PATTERN_CHARSETS !! c) as [cs|] eqn:E; simpl.
  - apply PATTERN_CHARSETS_sets in E as [E _].
    destruct descending; [by rewrite reverse_Permutation | done].
  - apply NoDup_singleton.
Qed.

Lemma token_set_length descending t :
  length (PatternSpec.token_set descending t) = PatternSpec.size t.
Proof.
  destruct t, descending; simpl; try done. apply length_reverse.
Qed.

Lemma char_sets_spec (pattern order : str) :
  char_sets pattern order
  = map (fun c => PatternSpec.token_set (bool_decide (order <> u "asc"))
                    (PatternSpec.resolve c)) pattern.
Proof.
  unfold char_sets. apply map_ext. intros c. unfold PatternSpec.resolve.
  destruct (PATTERN_CHARSETS !! c); simpl; [|done].
  destruct (decide (order = u "asc")) as [->|Hne].
  - by rewrite bool_decide_eq_false_2 by (intros H; by apply H).
  - by rewrite bool_decide_eq_true_2.
Qed.

Lemma generate_from_pattern_spec (pattern order : str) :
  generate_from_pattern pattern order
  = yields (PatternSpec.expand (bool_decide (order <> u "asc")) pattern).
Proof.
  unfold generate_from_pattern, PatternSpec.expand.
  by rewrite join_product_chars, char_sets_spec.
Qed.

(** C5. For every pattern and either order, [generate_from_pattern] ends
    without an exception after yielding exactly [s1 * ... * sn] candidates,
    where [si] is the size of the character set of the i-th token (1 for a
    literal); every candidate has one character per token, and no candidate
    is yielded twice. *)
Theorem generate_from_pattern_count (pattern order : str) :
  let out := generate_from_pattern pattern order in
  fault out = None
  /\ length (items out)
     = foldr Nat.mul 1%nat
         (map (fun c => PatternSpec.size (PatternSpec.resolve c)) pattern)
  /\ Forall (fun candidate => length candidate = length pattern) (items out)
  /\ NoDup (items out).
Proof.
  rewrite generate_from_pattern_spec. simpl. unfold PatternSpec.expand.
  split_and!.
  - done.
  - rewrite length_product, map_map. f_equal. apply map_ext.
    intros c. apply token_set_length.
  - apply Forall_forall. intros l Hl%length_elem_of_product.
    by rewrite length_map in Hl.
  - apply NoDup_product, Forall_forall. intros cs Hcs.
    apply list_elem_of_fmap in Hcs as (c & -> & _). apply token_set_NoDup.
Qed.

Lemma mapM_head_token_sets descending (pattern : str) :
  mapM head (map (fun c => PatternSpec.token_set descending
                             (PatternSpec.resolve c)) pattern)
  = Some (map (fun c =>
                 default c (head (PatternSpec.token_set descending
                                    (PatternSpec.resolve c)))) pattern).
Proof.
  apply mapM_Some. induction pattern as [|c p IH]; simpl; constructor; [|done].
  unfold PatternSpec.resolve.
  destruct (PATTERN_CHARSETS !! c) as [cs|] eqn:E; simpl; [|done].
  apply PATTERN_CHARSETS_sets in E as [_ E].
  destruct descending.
  - rewrite head_reverse. destruct (last cs) eqn:El; [done|].
    by apply last_None in El.
  - by destruct cs.
Qed.

(** C6. For every pattern, descending expansion is the Cartesian product
    of the token sets with each symbolic token's set reversed and each
    literal unchanged (ascending expansion takes the sets as they are); the
    first ascending candidate takes the first member of every token's set
    and the first descending candidate the last member of the same set.
    For the pattern "A1" these are "A0" and "Z9". *)
Theorem generate_from_pattern_descending (pattern : str) :
  let sets c := PatternSpec.token_set false (PatternSpec.resolve c) in
  items (generate_from_pattern pattern (u "desc"))
  = PatternSpec.expand true pattern
  /\ items (generate_from_pattern pattern (u "asc"))
     = PatternSpec.expand false pattern
  /\ head (items (generate_from_pattern pattern (u "asc")))
     = Some (map (fun c => default c (head (sets c))) pattern)
  /\ head (items (generate_from_pattern pattern (u "desc")))
     = Some (map (fun c => default c (last (sets c))) pattern)
  /\ head (items (generate_from_pattern (u "A1") (u "asc"))) = Some (u "A0")
  /\ head (items (generate_from_pattern (u "A1") (u "desc"))) = Some (u "Z9").
Proof.
  intros sets. rewrite !generate_from_pattern_spec.
  rewrite (bool_decide_eq_true_2 (u "desc" <> u "asc")) by done.
  rewrite (bool_decide_eq_false_2 (u "asc" <> u "asc")) by (intros H; by apply H).
  simpl. unfold PatternSpec.expand. split_and!; try done.
  - by rewrite head_product, mapM_head_token_sets.
  - rewrite head_product, mapM_head_token_sets. f_equal.
    apply map_ext. intros c. unfold sets.
    destruct (PatternSpec.resolve c); simpl; [done|].
    by rewrite head_reverse.
Qed.

(** ** Fixed-length brute force *)

Lemma StronglySorted_impl_elem_of {A} (R1 R2 : relation A) (l : list A) :
  (forall x y, x ∈ l -> y ∈ l -> R1 x y -> R2 x y) ->
  StronglySorted R1 l -> StronglySorted R2 l.
Proof.
  intros HR Hl. induction Hl as [|x l Hl IH Hx]; constructor.
  - apply IH. intros ????; apply HR; by right.
  - apply Forall_forall. intros y Hy. apply HR; [left | by right |].
    rewrite Forall_forall in Hx. by apply Hx.
Qed.

Lemma charset_sorted_by_index (charset : str) :
  NoDup charset -> StronglySorted (Lex.char_lt charset) charset.
Proof.
  induction 1 as [|x l Hx Hl IH]; constructor.
  - eapply StronglySorted_impl_elem_of; [|exact IH].
    intros a b Ha Hb Hab. unfold Lex.char_lt in *. simpl.
    destruct (decide (a = x)) as [->|]; [done|].
    destruct (decide (b = x)) as [->|]; [done|]. lia.
  - apply Forall_forall. intros y Hy. unfold Lex.char_lt. simpl.
    rewrite decide_True by done.
    destruct (decide (y = x)) as [->|]; [done|]. lia.
Qed.

Lemma flat_map_cons_sorted (charset l : str) (tails : list str) :
  StronglySorted (Lex.lt charset) tails ->
  StronglySorted (Lex.char_lt charset) l ->
  StronglySorted (Lex.lt charset) (flat_map (fun x => map (cons x) tails) l).
Proof.
  intros Ht. induction l as [|x l IHl]; intros Hs; simpl; [constructor|].
  apply StronglySorted_cons in Hs as [Hx Hs].
  apply StronglySorted_app_2.
  - intros a b Ha Hb.
    apply list_elem_of_fmap in Ha as (a' & -> & _).
    apply elem_of_flat_map in Hb as (y & Hy & Hb).
    apply list_elem_of_fmap in Hb as (b' & -> & _).
    simpl. left. rewrite Forall_forall in Hx. by apply Hx.
  - eapply StronglySorted_fmap; [|exact Ht].
    intros a b Hab. simpl. by right.
  - by apply IHl.
Qed.

Lemma product_sorted (charset : str) (n : nat) :
  NoDup charset ->
  StronglySorted (Lex.lt charset) (Itertools.product (replicate n charset)).
Proof.
  intros Hnd. induction n as [|n IH]; simpl.
  - repeat constructor.
  - apply flat_map_cons_sorted; [done|]. by apply charset_sorted_by_index.
Qed.

Lemma elem_of_product_replicate (charset s : str) (n : nat) :
  s ∈ Itertools.product (replicate n charset)
  <-> length s = n /\ Forall (fun c => c ∈ charset) s.
Proof.
  rewrite elem_of_product. split.
  - intros H. split.
    + apply Forall2_length in H. by rewrite length_replicate in H.
    + remember (replicate n charset) as pools eqn:E. revert n E.
      induction H as [|c p s ps Hc Hs IH]; intros n E; [constructor|].
      destruct n as [|n]; simplify_eq/=. constructor; eauto.
  - intros [Hlen Hall]. by apply Forall2_replicate_r.
Qed.

Lemma generate_by_length_items (w : World) (n : Z) (charset : str) :
  ByLengthSpec.feasible w n ->
  generate_by_length w n charset
  = yields (Itertools.product (replicate (Z.to_nat n) charset)).
Proof.
  intros [[Hn Hmax] Halloc]. unfold generate_by_length, PY_SSIZE_T_MAX.
  rewrite orb_false_intro by (apply Z.ltb_ge; lia).
  rewrite (proj2 (Z.ltb_ge n 0)) by lia.
  destruct (Z.eqb_spec n 0) as [->|Hn0]; [done|].
  assert (Hdiv : 1 <= (2 ^ 63 - 1) / 8 / n).
  { apply Z.div_le_lower_bound; [lia|].
    change ((2 ^ 63 - 1) / 8) with (2 ^ 60 - 1). lia. }
  rewrite (proj2 (Z.ltb_ge _ 1)) by done.
  destruct Halloc as [? | Halloc]; [done|]. rewrite Halloc. simpl.
  unfold chars. by rewrite <- (fmap_replicate (fun s : str => chars s)),
    join_product_chars.
Qed.

Lemma generate_by_length_too_large (w : World) (n : Z) (charset : str) :
  2 ^ 60 <= n ->
  exists msg, generate_by_length w n charset = raises (Exn OverflowError msg).
Proof.
  intros Hn. unfold generate_by_length, PY_SSIZE_T_MAX.
  destruct (_ || _); [by eexists|].
  rewrite (proj2 (Z.ltb_ge n 0)) by lia.
  rewrite (proj2 (Z.eqb_neq n 0)) by lia.
  assert (Hdiv : (2 ^ 63 - 1) / 8 / n < 1).
  { apply Z.div_lt_upper_bound; [lia|].
    change ((2 ^ 63 - 1) / 8) with (2 ^ 60 - 1). lia. }
  rewrite (proj2 (Z.ltb_lt _ 1)) by done. by eexists.
Qed.

Lemma generate_by_length_no_memory (w : World) (n : Z) (charset : str) :
  0 < n < 2 ^ 60 -> allocates w n = false ->
  generate_by_length w n charset = raises (Exn MemoryError "").
Proof.
  intros [Hn Hmax] Halloc. unfold generate_by_length, PY_SSIZE_T_MAX.
  rewrite orb_false_intro by (apply Z.ltb_ge; lia).
  rewrite (proj2 (Z.ltb_ge n 0)) by lia.
  rewrite (proj2 (Z.eqb_neq n 0)) by lia.
  assert (Hdiv : 1 <= (2 ^ 63 - 1) / 8 / n).
  { apply Z.div_le_lower_bound; [lia|].
    change ((2 ^ 63 - 1) / 8) with (2 ^ 60 - 1). lia. }
  rewrite (proj2 (Z.ltb_ge _ 1)) by done. by rewrite Halloc.
Qed.

(** C7, counterexample. A length of [2 ** 60] is not enumerated:
    [itertools.product] refuses it with [OverflowError] when the generator
    is first advanced, for the charset "ab" as for the empty one. *)
Lemma generate_by_length_overflow :
  let w := Sample.world (u "secret") in
  generate_by_length w (2 ^ 60) (u "ab")
  = raises (Exn OverflowError "repeat argument too large")
  /\ generate_by_length w (2 ^ 60) []
     = raises (Exn OverflowError "repeat argument too large")
  /\ ~ ByLengthSpec.every_length_enumerated.
Proof.
  split_and!; [by vm_compute | by vm_compute |].
  intros H.
  destruct (H (Sample.world (u "secret")) (2 ^ 60) (u "ab")) as [Hfault _].
  - done.
  - apply (bool_decide_unpack _). by vm_compute.
  - by vm_compute in Hfault.
Qed.

(** C7, as the code has it. For every length [0 <= n < 2 ** 60] whose
    tables the machine allocates and every charset of distinct characters,
    [generate_by_length] ends without an exception, yields exactly the
    strings of length [n] over the charset, each once, in the
    lexicographic order the charset induces; length 0 yields the empty
    string alone, and an empty charset with [n > 0] yields nothing.  A
    length from [2 ** 60] up raises [OverflowError], and a smaller one
    whose tables the machine does not allocate raises [MemoryError], when
    the generator is first advanced. *)
Theorem generate_by_length_lexicographic
  (w : World) (n : Z) (charset : str) :
  (ByLengthSpec.feasible w n ->
   NoDup charset ->
   let out := generate_by_length w n charset in
   fault out = None
   /\ (forall s, s ∈ items out
                 <-> length s = Z.to_nat n /\ Forall (fun c => c ∈ charset) s)
   /\ NoDup (items out)
   /\ StronglySorted (Lex.lt charset) (items out)
   /\ (n = 0 -> items out = [[]])
   /\ (0 < n -> charset = [] -> items out = []))
  /\ (2 ^ 60 <= n ->
      exists msg,
        generate_by_length w n charset = raises (Exn OverflowError msg))
  /\ (0 < n < 2 ^ 60 -> allocates w n = false ->
      generate_by_length w n charset = raises (Exn MemoryError "")).
Proof.
  split_and!.
  - intros Hn Hnd. rewrite generate_by_length_items by done. simpl.
    destruct Hn as [[Hn _] _]. split_and!.
    + done.
    + intros s. apply elem_of_product_replicate.
    + apply NoDup_product, Forall_forall.
      intros p (-> & _)%elem_of_replicate. done.
    + by apply product_sorted.
    + by intros ->.
    + intros Hpos ->. destruct (Z.to_nat n) eqn:E; [lia|]. done.
  - apply generate_by_length_too_large.
  - apply generate_by_length_no_memory.
Qed.

Lemma generate_by_length_witness :
  let w := Sample.world (u "secret") in
  let out := generate_by_length w 2 (u "ab") in
  (fault out = None
   /\ (forall s, s ∈ items out
                 <-> length s = Z.to_nat 2 /\ Forall (fun c => c ∈ u "ab") s)
   /\ NoDup (items out)
   /\ StronglySorted (Lex.lt (u "ab")) (items out)
   /\ (2 = 0 -> items out = [[]])
   /\ (0 < 2 -> u "ab" = [] -> items out = []))
  /\ (exists msg,
        generate_by_length w (2 ^ 62) (u "ab")
        = raises (Exn OverflowError msg))
  /\ generate_by_length w 5000000 (u "ab") = raises (Exn MemoryError "").
Proof.
  split; [|split].
  - apply (proj1 (generate_by_length_lexicographic
                    (Sample.world (u "secret")) 2 (u "ab"))).
    + split; [split; [discriminate | reflexivity] | right; reflexivity].
    + apply (bool_decide_unpack _). vm_compute. exact I.
  - apply (proj1 (proj2 (generate_by_length_lexicographic
                           (Sample.world (u "secret")) (2 ^ 62) (u "ab")))).
    discriminate.
  - apply (proj2 (proj2 (generate_by_length_lexicographic
                           (Sample.world (u "secret")) 5000000 (u "ab")))).
    + split; reflexivity.
    + reflexivity.
Defined.

Example generate_by_length_ab :
  generate_by_length (Sample.world (u "secret")) 2 (u "ab")
  = yields [u "aa"; u "ab"; u "ba"; u "bb"].
Proof. reflexivity. Qed.

(** ** Caps and the order of the strategies *)

Lemma truthy_str_app (a b : str) :
  truthy_str (a ++ b) = truthy_str a || truthy_str b.
Proof. by destruct a, b. Qed.

Lemma candidate_streams_sources (w : World) (args : Args.t) :
  candidate_streams w args = Priority.sources w args.
Proof.
  unfold candidate_streams, Priority.sources, Priority.seed_source,
    Priority.pattern_source, Priority.length_source,
    Priority.wordlist_source, Priority.pattern_supplied,
    Priority.pattern_spec.
  destruct args as [target pattern prefix suffix order len charset seed
                      wordlist max_candidates seed_variants type]; simpl.
  assert (Hspec :
    truthy_str (prefix ++ default [] pattern ++ suffix)
    = truthy_opt_str pattern || truthy_str prefix || truthy_str suffix).
  { rewrite !truthy_str_app. destruct pattern as [[|]|], prefix, suffix; done. }
  assert (Hpat :
    (if truthy_opt_str pattern then default [] pattern else []) 
    = default [] pattern).
  { by destruct pattern as [[|]|]. }
  rewrite Hpat. clear Hpat.
  destruct (truthy_opt_str pattern || truthy_str prefix || truthy_str suffix)
    eqn:Esup; simpl.
  - rewrite Hspec.
    destruct seed as [[|]|], wordlist as [[[]]|]; simpl;
      rewrite <- ?app_assoc; done.
  - destruct seed as [[|]|], wordlist as [[[]]|], len as [len|]; simpl;
      try destruct (len =? 0); simpl; rewrite <- ?app_assoc; done.
Qed.

(** C8. A cap [N] lets through exactly the first [min(N, total)] values
    of its generator (none when [N <= 0]), counted as the generator yields
    them; without a cap the generator passes unchanged.  In [crack_target]
    every strategy is wrapped on its own: the seed variants by
    [seed_variants], pattern expansion or brute force by [max_candidates],
    the word list by nothing. *)
Theorem limited_takes_first (w : World) (generator : stream) (args : Args.t) :
  (forall N : Z,
      items (limited generator (Some N))
      = take (Z.to_nat (Z.min N (Z.of_nat (length (items generator)))))
          (items generator))
  /\ limited generator None = generator
  /\ candidate_streams w args
     = Priority.seed_source args ++ Priority.pattern_source args
         ++ Priority.length_source w args ++ Priority.wordlist_source args.
Proof.
  split_and!.
  - intros N. unfold limited.
    destruct (decide (Z.to_nat N < length (items generator))%nat) as [Hlt|Hge].
    + simpl. rewrite Z2Nat.inj_min, Nat2Z.id. by rewrite Nat.min_l by lia.
    + rewrite Z2Nat.inj_min, Nat2Z.id. rewrite Nat.min_r by lia.
      by rewrite take_ge.
  - done.
  - apply candidate_streams_sources.
Qed.

(** ** The search loop *)

Section search.
Variable test : str -> result bool.

Lemma first_hit_app (l1 l2 : list str) :
  SearchSpec.first_hit test (l1 ++ l2)
  = match SearchSpec.first_hit test l1 with
    | Some x => Some x
    | None => SearchSpec.first_hit test l2
    end.
Proof.
  induction l1 as [|p l1 IH]; simpl; [done|].
  by destruct (test p) as [[]|].
Qed.

Lemma first_hit_found (pre post : list str) (p : str) :
  Forall (fun q => test q = Ok false) pre ->
  test p = Ok true ->
  SearchSpec.first_hit test (pre ++ p :: post) = Some (Ok p).
Proof.
  induction 1 as [|q pre Hq _ IH]; intros Hp; simpl.
  - by rewrite Hp.
  - rewrite Hq. by apply IH.
Qed.

Lemma first_hit_raised (pre post : list str) (p : str) (e : exn) :
  Forall (fun q => test q = Ok false) pre ->
  test p = Raise e ->
  SearchSpec.first_hit test (pre ++ p :: post) = Some (Raise e).
Proof.
  induction 1 as [|q pre Hq _ IH]; intros Hp; simpl.
  - by rewrite Hp.
  - rewrite Hq. by apply IH.
Qed.

Lemma first_hit_none (l : list str) :
  Forall (fun q => test q = Ok false) l ->
  SearchSpec.first_hit test l = None.
Proof. induction 1 as [|q l Hq _ IH]; simpl; [done|]. by rewrite Hq. Qed.

(** Skipping what is in [seen] does not change where the loop stops. *)
Lemma scan_first_hit (passwords : list str) (r : run) :
  rejected test r ->
  (scan test passwords r).2 = SearchSpec.first_hit test passwords
  /\ (SearchSpec.first_hit test passwords = None ->
      rejected test (scan test passwords r).1).
Proof.
  revert r. induction passwords as [|p ps IH]; intros r Hr; simpl.
  - done.
  - destruct (decide (p ∈ seen r)) as [Hin|Hnin].
    + rewrite (Hr p Hin). by apply IH.
    + destruct (test p) as [[]|e] eqn:Hp; simpl; [done| |done].
      apply IH. intros q [Hq| ->%elem_of_singleton]%elem_of_union; auto.
Qed.

Lemma search_outcome (streams : list stream) (r : run) :
  rejected test r ->
  (search test streams r).2
  = SearchSpec.outcome test (SearchSpec.merged streams).
Proof.
  unfold SearchSpec.outcome.
  revert r. induction streams as [|s rest IH]; intros r Hr; simpl.
  - done.
  - destruct (scan_first_hit (items s) r Hr) as [Hhit Hrej].
    destruct (scan test (items s) r) as [r' [[p|e]|]] eqn:Escan;
      simpl in Hhit.
    + destruct (fault s); simpl; [|rewrite first_hit_app];
        by rewrite <- Hhit.
    + destruct (fault s); simpl; [|rewrite first_hit_app];
        by rewrite <- Hhit.
    + destruct (fault s) as [e|]; simpl.
      * by rewrite <- Hhit.
      * rewrite first_hit_app, <- Hhit. by apply IH, Hrej.
Qed.

Lemma consistent_step (p : str) (r : run) :
  consistent r -> p ∉ seen r ->
  consistent (log_attempt p
                {| seen := seen r ∪ {[ p ]};
                   attempted := attempted r;
                   tested := tested r ++ [p];
                   progress := progress r |}).
Proof.
  intros (Hnd & Hn & Hs) Hp. unfold consistent; simpl. split_and!.
  - apply NoDup_app. split_and!; [done| |apply NoDup_singleton].
    intros x Hx ->%list_elem_of_singleton. apply Hp. rewrite Hs.
    by apply elem_of_list_to_set.
  - rewrite length_app. simpl. lia.
  - rewrite list_to_set_app_L, Hs. simpl. by rewrite (right_id_L ∅ (∪)).
Qed.

(** The loop hands to the tester a subsequence of what it is given, and
    keeps [seen] and the counter in step with it. *)
Lemma scan_tested (passwords : list str) (r : run) :
  exists k,
    tested (scan test passwords r).1 = tested r ++ k
    /\ k `sublist_of` passwords
    /\ (consistent r -> consistent (scan test passwords r).1).
Proof.
  revert r. induction passwords as [|p ps IH]; intros r; simpl.
  - exists []. by rewrite app_nil_r.
  - destruct (decide (p ∈ seen r)) as [Hin|Hnin].
    + destruct (IH r) as (k & Hk & Hsub & Hc).
      exists k. split_and!; [done| by apply sublist_cons |done].
    + set (r1 := log_attempt p _).
      assert (Hc1 : consistent r -> consistent r1)
        by (intros; by apply consistent_step).
      assert (Hone : [p] `sublist_of` p :: ps)
        by (apply sublist_skip, sublist_nil_l).
      destruct (test p) as [[]|e]; simpl.
      * exists [p]. done.
      * destruct (IH r1) as (k & Hk & Hsub & Hc).
        exists (p :: k). split_and!.
        -- rewrite Hk. simpl. by rewrite <- app_assoc.
        -- by apply sublist_skip.
        -- auto.
      * exists [p]. done.
Qed.

Lemma search_tested (streams : list stream) (r : run) :
  exists k,
    tested (search test streams r).1 = tested r ++ k
    /\ k `sublist_of` items (SearchSpec.merged streams)
    /\ (consistent r -> consistent (search test streams r).1).
Proof.
  revert r. induction streams as [|s rest IH]; intros r; simpl.
  - exists []. by rewrite app_nil_r.
  - destruct (scan_tested (items s) r) as (k & Hk & Hsub & Hc).
    assert (Hsub' :
      k `sublist_of` items (SearchSpec.merged (s :: rest))).
    { simpl. destruct (fault s); simpl; [done|].
      by apply sublist_inserts_r. }
    destruct (scan test (items s) r) as [r' [[p|e]|]]; simpl in *.
    + exists k. done.
    + exists k. done.
    + destruct (fault s) as [e|] eqn:Ef; simpl in *.
      * exists k. done.
      * destruct (IH r') as (k' & Hk' & Hsubk & Hc').
        exists (k ++ k'). split_and!.
        -- by rewrite Hk', Hk, app_assoc.
        -- by apply sublist_app.
        -- auto.
Qed.

End search.

Lemma rejected_start test : rejected test start.
Proof. intros q Hq. simpl in Hq. set_solver. Qed.

Lemma consistent_start : consistent start.
Proof. unfold consistent, start; simpl. split_and!; [constructor|done|done]. Qed.

Lemma crack_target_outcome (w : World) (target_type : str) (args : Args.t) :
  crack_target w target_type args
  = SearchSpec.outcome (fun p => try_password w p target_type)
      (SearchSpec.merged (Priority.sources w args)).
Proof.
  unfold crack_target, crack_target_run.
  rewrite candidate_streams_sources.
  apply search_outcome, rejected_start.
Qed.

(** C1. For every configuration and every behaviour of the tester on the
    candidates, [crack_target] returns the first candidate, in the order
    seed variants, pattern expansion, fixed-length brute force, word list,
    on which the tester returns true; when the tester returns false on
    every candidate and no source raises, it returns [None]. *)
Theorem crack_target_first_match
  (w : World) (target_type : str) (args : Args.t) :
  let test p := try_password w p target_type in
  let candidates := SearchSpec.merged (Priority.sources w args) in
  (forall pre p post,
      items candidates = pre ++ p :: post ->
      Forall (fun q => test q = Ok false) pre ->
      test p = Ok true ->
      crack_target w target_type args = Ok (Some p))
  /\ (Forall (fun q => test q = Ok false) (items candidates) ->
      fault candidates = None ->
      crack_target w target_type args = Ok None).
Proof.
  intros test candidates. rewrite crack_target_outcome.
  fold test candidates. unfold SearchSpec.outcome. split.
  - intros pre p post -> Hpre Hp. by rewrite first_hit_found.
  - intros Hall ->. by rewrite first_hit_none.
Qed.

Lemma crack_target_first_match_witness :
  let args :=
    Sample.with_wordlist [u "zz"; u "aB"]
      (Sample.with_seed (u "ab") (Sample.defaults (u ".pdf"))) in
  crack_target (Sample.world (u "aB")) (u "pdf") args = Ok (Some (u "aB"))
  /\ crack_target (Sample.world (u "none")) (u "pdf") args = Ok None.
Proof.
  split.
  - apply (proj1 (crack_target_first_match (Sample.world (u "aB")) (u "pdf")
                    (Sample.with_wordlist [u "zz"; u "aB"]
                       (Sample.with_seed (u "ab")
                          (Sample.defaults (u ".pdf")))))
             [u "AB"; u "Ab"] (u "aB") [u "ab"; u "zz"; u "aB"]).
    + vm_compute. reflexivity.
    + repeat constructor.
    + reflexivity.
  - apply (proj2 (crack_target_first_match (Sample.world (u "none")) (u "pdf")
                    (Sample.with_wordlist [u "zz"; u "aB"]
                       (Sample.with_seed (u "ab")
                          (Sample.defaults (u ".pdf")))))).
    + vm_compute. repeat constructor.
    + vm_compute. reflexivity.
Defined.

(** C2. In every run the passwords handed to the tester are pairwise
    distinct; they are a subsequence of the candidates the sources yield,
    [seen] holds exactly the passwords tested so far whichever source they
    came from, and [attempted] counts them. *)
Theorem crack_target_tests_once
  (w : World) (target_type : str) (args : Args.t) :
  let r := (crack_target_run w target_type args).1 in
  NoDup (tested r)
  /\ tested r `sublist_of` items (SearchSpec.merged (candidate_streams w args))
  /\ seen r = list_to_set (tested r)
  /\ attempted r = length (tested r).
Proof.
  unfold crack_target_run.
  destruct (search_tested (fun p => try_password w p target_type)
              (candidate_streams w args) start) as (k & Hk & Hsub & Hc).
  destruct (Hc consistent_start) as (Hnd & Hn & Hs).
  simpl in Hk. subst k. done.
Qed.

(** ** Configuration that is not checked *)

Lemma search_app test (l1 l2 : list stream) (r : run) :
  search test (l1 ++ l2) r
  = match search test l1 r with
    | (r', Ok None) => search test l2 r'
    | other => other
    end.
Proof.
  revert r. induction l1 as [|s l1 IH]; intros r; simpl; [done|].
  destruct (scan test (items s) r) as [r' [[p|e]|]]; try done.
  destruct (fault s); [done|]. apply IH.
Qed.

Lemma limited_empty (limit : option Z) (end_ : option exn) :
  limited (Stream [] end_) limit = Stream [] end_.
Proof.
  destruct limit as [n|]; [|done]. unfold limited.
  destruct (decide _) as [Hlt|]; [simpl in Hlt; lia | done].
Qed.

Lemma generate_by_length_config_error (w : World) (n : Z) (charset : str) :
  n < 0 \/ (0 < n /\ charset = []) ->
  items (generate_by_length w n charset) = [].
Proof.
  intros Hn. unfold generate_by_length.
  destruct (_ || _); [done|].
  destruct (n <? 0) eqn:Hneg; [done|].
  destruct (Z.eqb_spec n 0) as [->|Hn0]; [lia|].
  destruct (_ <? 1); [done|].
  destruct (allocates w n); [|done]. simpl.
  destruct Hn as [Hn | [Hn ->]]; [lia|].
  destruct (Z.to_nat n) eqn:E; [lia|]. done.
Qed.

Lemma generate_by_length_negative (w : World) (n : Z) (charset : str) :
  - 2 ^ 63 <= n < 0 ->
  generate_by_length w n charset
  = raises (Exn ValueError "repeat argument cannot be negative").
Proof.
  intros Hn. unfold generate_by_length, PY_SSIZE_T_MAX.
  rewrite orb_false_intro by (apply Z.ltb_ge; lia).
  by rewrite (proj2 (Z.ltb_lt n 0)) by lia.
Qed.

Lemma generate_by_length_below_ssize (w : World) (n : Z) (charset : str) :
  n < - 2 ^ 63 ->
  generate_by_length w n charset
  = raises (Exn OverflowError "Python int too large to convert to C ssize_t").
Proof.
  intros Hn. unfold generate_by_length, PY_SSIZE_T_MAX.
  by rewrite (proj2 (Z.ltb_lt n _)) by lia.
Qed.

(** C3, counterexample. A length of 2 over the empty charset is a
    configuration error, yet the run tests nothing and returns [None] as
    an exhausted search does, and [main] exits with status 1 as after any
    failed search: configuration errors are not reported. *)
Lemma config_errors_not_reported :
  let args := Sample.with_length (Some 2) [] (Sample.defaults (u ".pdf")) in
  let w := Sample.world (u "secret") in
  ConfigSpec.config_error args
  /\ crack_target_run w (u "pdf") args = (start, Ok None)
  /\ main w args = Ok (1, None)
  /\ ~ ConfigSpec.errors_reported.
Proof.
  assert (Herr : ConfigSpec.config_error
                   (Sample.with_length (Some 2) []
                      (Sample.defaults (u ".pdf")))).
  { right. split; [lia | done]. }
  split_and!; [exact Herr | reflexivity | reflexivity |].
  intros H.
  destruct (H (Sample.world (u "secret")) (u "pdf") _ Herr) as [e He].
  apply (f_equal snd) in He. vm_compute in He. discriminate.
Qed.

(** C3, as the code has it. Nothing checks the configuration before the
    search.  Without a pattern, a length that is negative, or positive
    over an empty charset, yields no candidate: the seed variants are
    searched first; then the first advance of the brute-force generator
    either raises, which ends the run, or ends the generator at once, and
    the search goes on to the word list as if no length were given.  It
    raises [ValueError] for a length in [[-2 ** 63, 0)], [OverflowError]
    for a length below [-2 ** 63] or from [2 ** 60] up, and [MemoryError]
    for a positive length whose tables the machine does not allocate. *)
Theorem crack_target_unchecked_length
  (w : World) (target_type : str) (args : Args.t) (n : Z) :
  Args.length args = Some n ->
  Priority.pattern_supplied args = false ->
  n < 0 \/ (0 < n /\ Args.charset args = []) ->
  let test p := try_password w p target_type in
  let by_length := generate_by_length w n (Args.charset args) in
  crack_target_run w target_type args
  = match search test (Priority.seed_source args) start with
    | (r, Ok None) =>
        match fault by_length with
        | Some e => (r, Raise e)
        | None => search test (Priority.wordlist_source args) r
        end
    | other => other
    end
  /\ (- 2 ^ 63 <= n < 0 ->
      fault by_length
      = Some (Exn ValueError "repeat argument cannot be negative"))
  /\ (n < - 2 ^ 63 \/ 2 ^ 60 <= n ->
      exists msg, fault by_length = Some (Exn OverflowError msg))
  /\ (0 < n < 2 ^ 60 ->
      fault by_length
      = if allocates w n then None else Some (Exn MemoryError "")).
Proof.
  intros Hlen Hpat Hn test by_length. split; [|split; [|split]].
  - unfold crack_target_run. fold test.
    rewrite candidate_streams_sources. unfold Priority.sources.
    unfold Priority.pattern_source, Priority.length_source.
    rewrite Hpat, Hlen. simpl. rewrite search_app.
    destruct (search test (Priority.seed_source args) start)
      as [r [[p|]|e]]; try done.
    rewrite (proj2 (Z.eqb_neq n 0)) by lia.
    pose proof (generate_by_length_config_error w n _ Hn) as Hitems.
    fold by_length in Hitems |- *.
    destruct by_length as [l f]. simpl in Hitems. subst l.
    rewrite limited_empty. simpl. by destruct f.
  - intros Hneg. unfold by_length.
    by rewrite generate_by_length_negative.
  - intros [Hlow | Hhigh]; unfold by_length.
    + rewrite generate_by_length_below_ssize by done. by eexists.
    + destruct (generate_by_length_too_large w n (Args.charset args) Hhigh)
        as [msg ->]. by eexists.
  - intros Hpos. unfold by_length.
    destruct (allocates w n) eqn:Halloc.
    + rewrite generate_by_length_items; [done|].
      split; [lia | by right].
    + by rewrite generate_by_length_no_memory.
Qed.

Lemma crack_target_unchecked_length_witness :
  crack_target_run (Sample.world (u "secret")) (u "pdf")
    (Sample.with_length (Some 2) []
       (Sample.with_wordlist [u "secret"] (Sample.defaults (u ".pdf"))))
  = ({| seen := {[ u "secret" ]}; attempted := 1;
        tested := [u "secret"]; progress := [] |},
     Ok (Some (u "secret"))).
Proof.
  rewrite (proj1 (crack_target_unchecked_length
                    (Sample.world (u "secret")) (u "pdf")
                    (Sample.with_length (Some 2) []
                       (Sample.with_wordlist [u "secret"]
                          (Sample.defaults (u ".pdf"))))
                    2 eq_refl eq_refl
                    (or_intror (conj eq_refl eq_refl)))).
  vm_compute. reflexivity.
Defined.

Example crack_target_negative_length :
  crack_target (Sample.world (u "secret")) (u "pdf")
    (Sample.with_length (Some (-1)) (u "ab")
       (Sample.with_seed (u "a") (Sample.defaults (u ".pdf"))))
  = Raise (Exn ValueError "repeat argument cannot be negative")
  /\ tested (crack_target_run (Sample.world (u "secret")) (u "pdf")
       (Sample.with_length (Some (-1)) (u "ab")
          (Sample.with_seed (u "a") (Sample.defaults (u ".pdf"))))).1
     = [u "A"; u "a"].
Proof. split; vm_compute; reflexivity. Qed.

(** ** Missing tools *)

Lemma try_password_tool_missing w password target_type e :
  tool_missing w password target_type e ->
  try_password w password target_type = Raise e.
Proof.
  destruct 1 as [Hrar | e0 Hrar Hread Hcls | H7z | e0 Hsys Hrun Hcls
                | e0 Hsys Hrun Hcls]; unfold try_password; simpl.
  - unfold try_rar_password. by rewrite Hrar.
  - unfold try_rar_password. rewrite Hrar, Hread. simpl.
    unfold isinstance. by rewrite Hcls.
  - unfold try_7z_password. by rewrite H7z.
  - unfold try_iso_password, try_iso_with_7z_cli.
    rewrite (proj2 (String.eqb_neq _ _) Hsys), Hrun.
    unfold isinstance. by rewrite Hcls.
  - unfold try_iso_password, try_iso_hdiutil.
    rewrite (proj2 (String.eqb_eq _ _) Hsys), Hrun.
    unfold isinstance. by rewrite Hcls.
Qed.

(** C4, counterexample. With a PyPDF2 that lacks the cryptography module
    the target needs, every test of a PDF raises [DependencyError] inside
    the tester, which answers false: the run goes through all candidates
    and ends as a failed search. *)
Lemma missing_library_absorbed :
  let w := world_without_pdf_crypto in
  let args :=
    Sample.with_wordlist [u "letmein"; u "secret"]
      (Sample.defaults (u ".pdf")) in
  ToolSpec.unavailable w (u "letmein") (u "pdf")
  /\ try_password w (u "letmein") (u "pdf") = Ok false
  /\ crack_target_run w (u "pdf") args
     = ({| seen := list_to_set [u "letmein"; u "secret"]; attempted := 2;
           tested := [u "letmein"; u "secret"]; progress := [] |},
        Ok None)
  /\ main w args = Ok (1, None)
  /\ ~ ToolSpec.missing_tool_raises.
Proof.
  assert (Hun : ToolSpec.unavailable world_without_pdf_crypto
                  (u "letmein") (u "pdf")).
  { by eapply ToolSpec.pdf_crypto_missing. }
  split_and!; [done | done | by vm_compute | by vm_compute |].
  intros H. by destruct (H _ _ _ Hun) as [e He].
Qed.

(** C4, as the code has it. When the [rarfile] or [py7zr] module, the
    unrar command, the 7z executable or hdiutil is missing,
    [try_password] raises [RuntimeError] instead of returning false;
    [crack_target] stops at that candidate with the same exception, and
    [main] lets it through to its caller.  The PDF and the ZIP tester
    answer false to every exception of class [Exception] that the library
    raises, a missing dependency among them, and the 7z tester answers
    false to an unsupported compression method; what the library returns
    without raising is passed on. *)
Theorem tool_missing_aborts_search (w : World) (p : str) :
  (forall (target_type : str) (args : Args.t) (pre post : list str) (e : exn),
      items (SearchSpec.merged (candidate_streams w args))
      = pre ++ p :: post ->
      Forall (fun q => try_password w q target_type = Ok false) pre ->
      tool_missing w p target_type e ->
      try_password w p target_type = Raise e
      /\ exn_cls e = RuntimeError
      /\ crack_target w target_type args = Raise e
      /\ (exists_ (Args.target args) = true ->
          determine_target_type (Args.target args) (Args.type args)
          = target_type ->
          main w args = Raise e))
  /\ (forall e : exn,
        is_Exception e = true ->
        (pdf_decrypt w p = Raise e -> try_password w p (u "pdf") = Ok false)
        /\ (zip_read w p = Raise e -> try_password w p (u "zip") = Ok false))
  /\ (forall e : exn,
        py7zr_imported w = true ->
        sevenzip_read w p = Raise e ->
        exn_cls e = UnsupportedCompressionMethodError ->
        try_password w p (u "7z") = Ok false)
  /\ (forall b : bool,
        pdf_decrypt w p = Ok b -> try_password w p (u "pdf") = Ok b)
  /\ (zip_read w p = Ok tt -> try_password w p (u "zip") = Ok true).
Proof.
  split; [|split; [|split; [|split]]].
  - intros target_type args pre post e Hitems Hpre Hmiss.
    pose proof (try_password_tool_missing _ _ _ _ Hmiss) as Hp.
    assert (Hcrack : crack_target w target_type args = Raise e).
    { rewrite crack_target_outcome, <- candidate_streams_sources.
      unfold SearchSpec.outcome. rewrite Hitems.
      by rewrite (first_hit_raised _ pre post p e). }
    split_and!; [done | by destruct Hmiss | done |].
    intros Hex Htype. unfold main. rewrite Hex, Htype. simpl.
    by rewrite Hcrack.
  - intros e He. split; intros Hraise.
    + change (try_password w p (u "pdf")) with (try_pdf_password w p).
      unfold try_pdf_password. by rewrite Hraise, He.
    + change (try_password w p (u "zip")) with (try_zip_password w p).
      unfold try_zip_password. rewrite Hraise, He.
      by destruct (isinstance e _).
  - intros e Himp Hraise Hcls.
    change (try_password w p (u "7z")) with (try_7z_password w p).
    unfold try_7z_password, isinstance. by rewrite Himp, Hraise, Hcls.
  - intros b Hb.
    change (try_password w p (u "pdf")) with (try_pdf_password w p).
    unfold try_pdf_password. by rewrite Hb.
  - intros Hread.
    change (try_password w p (u "zip")) with (try_zip_password w p).
    unfold try_zip_password. by rewrite Hread.
Qed.

Lemma tool_missing_aborts_search_witness :
  let args := Sample.with_wordlist [u "letmein"] (Sample.defaults (u ".rar")) in
  let e := Exn RuntimeError "rarfile dependency missing. Install via pip." in
  (try_password Sample.world_without_rarfile (u "letmein") (u "rar") = Raise e
   /\ exn_cls e = RuntimeError
   /\ crack_target Sample.world_without_rarfile (u "rar") args = Raise e
   /\ (exists_ (Args.target args) = true ->
       determine_target_type (Args.target args) (Args.type args) = u "rar" ->
       main Sample.world_without_rarfile args = Raise e))
  /\ try_password world_without_pdf_crypto (u "letmein") (u "pdf") = Ok false
  /\ try_password (Sample.world (u "letmein")) (u "letmein") (u "pdf")
     = Ok true.
Proof.
  split; [|split].
  - apply (proj1 (tool_missing_aborts_search Sample.world_without_rarfile
                    (u "letmein")) (u "rar")
             (Sample.with_wordlist [u "letmein"] (Sample.defaults (u ".rar")))
             [] []).
    + vm_compute. reflexivity.
    + constructor.
    + apply rarfile_missing. reflexivity.
  - apply (proj1 (proj1 (proj2 (tool_missing_aborts_search
                                  world_without_pdf_crypto (u "letmein")))
                    (Exn DependencyError
                       "PyCryptodome is required for AES algorithm")
                    eq_refl)).
    reflexivity.
  - apply (proj1 (proj2 (proj2 (proj2 (tool_missing_aborts_search
                                         (Sample.world (u "letmein"))
                                         (u "letmein")))))).
    reflexivity.
Defined.

(** ** Seed variants *)

(** C9, at the seeds that break it. For the seed U+00DF (sharp s),
    [isalpha] holds and [swapcase] gives "SS": the generator yields "SS",
    two characters for a seed of one.  For the seed U+00B2 (superscript
    two), [isdigit] holds and [int] raises [ValueError]: the generator
    yields nothing, not even the seed. *)
Theorem candidate_variants_beyond_ascii :
  candidate_variants [223%N] = yields [u "SS"; [223%N]]
  /\ length (u "SS") <> length [223%N]
  /\ candidate_variants [178%N]
     = raises (Exn ValueError "invalid literal for int() with base 10").
Proof. split_and!; [vm_compute; reflexivity | discriminate | vm_compute; reflexivity]. Qed.

Lemma ascii_options (c : char) :
  (c < 128)%N ->
  exists options,
    options_of c = Ok options
    /\ [c] ∈ options
    /\ forall s, s ∈ options -> length s = 1%nat.
Proof.
  intros Hc.
  assert (Hall : forallb ascii_options_ok (map N.of_nat (seq 0 128)) = true)
    by (vm_compute; reflexivity).
  rewrite forallb_forall in Hall.
  assert (Hc' : In c (map N.of_nat (seq 0 128))).
  { apply in_map_iff. exists (N.to_nat c). split; [lia|]. apply in_seq. lia. }
  specialize (Hall c Hc'). unfold ascii_options_ok in Hall.
  destruct (options_of c) as [options|e]; [|done].
  apply andb_true_iff in Hall as [Hin Hlen].
  exists options. split_and!; [done | by apply bool_decide_eq_true in Hin |].
  intros s Hs. rewrite forallb_forall in Hlen.
  apply Nat.eqb_eq, Hlen, list_elem_of_In, elem_of_elements, Hs.
Qed.

Lemma elem_of_sorted (s : str) (options : gset str) :
  s ∈ sorted options <-> s ∈ options.
Proof.
  unfold sorted. by rewrite merge_sort_Permutation, elem_of_elements.
Qed.

Lemma build_pools_ascii (seed : str) :
  Forall (fun c => (c < 128)%N) seed ->
  exists pools,
    build_pools seed = Ok pools
    /\ Forall2 (fun c pool => [c] ∈ pool
                              /\ Forall (fun s => length s = 1%nat) pool)
         seed pools.
Proof.
  induction 1 as [|c seed Hc _ (pools & Hpools & Hall)]; simpl.
  - exists []. split; [done | constructor].
  - destruct (ascii_options c Hc) as (options & -> & Hin & Hlen). simpl.
    rewrite Hpools. simpl. exists (sorted options :: pools).
    split; [done|]. constructor; [|done]. split.
    + by apply elem_of_sorted.
    + apply Forall_forall. intros s Hs. by apply Hlen, elem_of_sorted.
Qed.

Lemma length_join_singletons (combo : list str) :
  Forall (fun s => length s = 1%nat) combo -> length (join combo) = length combo.
Proof.
  unfold join. induction 1 as [|s combo Hs _ IH]; simpl; [done|].
  rewrite length_app. lia.
Qed.

(** X13. On a seed of ASCII characters the generator ends normally, yields the
    seed itself, and keeps its length in every candidate. *)
Lemma candidate_variants_ascii (seed : str) :
  Forall (fun c => (c < 128)%N) seed ->
  fault (candidate_variants seed) = None
  /\ seed ∈ items (candidate_variants seed)
  /\ Forall (fun s => length s = length seed) (items (candidate_variants seed)).
Proof.
  intros (pools & Hpools & Hall)%build_pools_ascii.
  unfold candidate_variants. rewrite Hpools. simpl. split_and!; [done| |].
  - apply list_elem_of_fmap. exists (chars seed).
    split; [by rewrite join_chars|].
    apply elem_of_product. unfold chars.
    clear Hpools. induction Hall as [|c pool seed pools [Hc _] _ IH]; simpl;
      by constructor.
  - apply Forall_forall. intros s (combo & -> & Hcombo)%list_elem_of_fmap.
    apply elem_of_product in Hcombo.
    rewrite length_join_singletons.
    + rewrite (Forall2_length _ _ _ Hcombo). symmetry.
      by apply (Forall2_length _ _ _ Hall).
    + clear Hpools. revert combo Hcombo.
      induction Hall as [|c pool seed pools [_ Hlen] _ IH];
        intros combo Hcombo; inversion Hcombo; subst; constructor.
      * rewrite Forall_forall in Hlen. by apply Hlen.
      * by apply IH.
Qed.

(** ** Target type *)

(** C10. With no forced type, [determine_target_type] maps the
    lower-cased suffix [.pdf], [.zip], [.rar], [.7z] or [.iso] to its type
    and every other suffix to "pdf"; it never fails. *)
Theorem determine_target_type_by_suffix (path : Path) :
  let ext := PyStr.lower (suffix path) in
  determine_target_type path None
  = (if decide (ext = u ".pdf") then u "pdf"
     else if decide (ext = u ".zip") then u "zip"
     else if decide (ext = u ".rar") then u "rar"
     else if decide (ext = u ".7z") then u "7z"
     else if decide (ext = u ".iso") then u "iso"
     else u "pdf")
  /\ determine_target_type path None ∈ SUPPORTED_TYPES
  /\ determine_target_type {| suffix := u ".PDF"; exists_ := true |} None
     = u "pdf"
  /\ determine_target_type {| suffix := u ".Zip"; exists_ := true |} None
     = u "zip"
  /\ determine_target_type {| suffix := u ".RAR"; exists_ := true |} None
     = u "rar"
  /\ determine_target_type {| suffix := u ".7Z"; exists_ := true |} None
     = u "7z"
  /\ determine_target_type {| suffix := u ".iSo"; exists_ := true |} None
     = u "iso"
  /\ determine_target_type {| suffix := u ".txt"; exists_ := true |} None
     = u "pdf"
  /\ determine_target_type {| suffix := []; exists_ := true |} None
     = u "pdf".
Proof.
  intros ext.
  assert (Heq : determine_target_type path None
    = (if decide (ext = u ".pdf") then u "pdf"
       else if decide (ext = u ".zip") then u "zip"
       else if decide (ext = u ".rar") then u "rar"
       else if decide (ext = u ".7z") then u "7z"
       else if decide (ext = u ".iso") then u "iso"
       else u "pdf")).
  { unfold determine_target_type, TARGET_TYPE_MAP. fold ext.
    rewrite !list_to_map_cons, !lookup_insert. simpl.
    repeat (case_decide; subst; try done).
    all: repeat (case_decide; try done). }
  split_and!; try (vm_compute; reflexivity).
  - exact Heq.
  - rewrite Heq. unfold SUPPORTED_TYPES.
    repeat case_decide; set_solver.
Qed.

(** * Further properties of the generators *)

(** ** Size of the brute-force space *)

Lemma foldr_mul_replicate (k n : nat) :
  foldr Nat.mul 1%nat (replicate n k) = (k ^ n)%nat.
Proof. induction n as [|n IH]; simpl; [done|]. by rewrite IH. Qed.

(** X2. For a length [0 <= n < 2 ** 60] whose tables the machine
    allocates, [generate_by_length] yields [len(charset) ** n] candidates,
    each of length [n], whether or not the charset repeats a character. *)
Theorem generate_by_length_count (w : World) (n : Z) (charset : str) :
  ByLengthSpec.feasible w n ->
  fault (generate_by_length w n charset) = None
  /\ length (items (generate_by_length w n charset))
     = (length charset ^ Z.to_nat n)%nat
  /\ Forall (fun s => length s = Z.to_nat n)
       (items (generate_by_length w n charset)).
Proof.
  intros Hn. rewrite generate_by_length_items by done. simpl. split_and!.
  - done.
  - rewrite length_product.
    change (map length (replicate (Z.to_nat n) charset))
      with (length <$> replicate (Z.to_nat n) charset).
    rewrite fmap_replicate. apply foldr_mul_replicate.
  - apply Forall_forall. intros s Hs.
    by apply elem_of_product_replicate in Hs as [Hs _].
Qed.

Lemma generate_by_length_count_witness :
  let w := Sample.world (u "secret") in
  fault (generate_by_length w 3 (u "aab")) = None
  /\ length (items (generate_by_length w 3 (u "aab"))) = (3 ^ 3)%nat
  /\ Forall (fun s => length s = 3%nat)
       (items (generate_by_length w 3 (u "aab"))).
Proof.
  apply (generate_by_length_count (Sample.world (u "secret")) 3 (u "aab")).
  split; [split; [discriminate | reflexivity] | right; reflexivity].
Defined.

(** ** Literal prefix and suffix of a pattern *)

Lemma flat_map_fmap {A B C} (f : A -> list B) (g : B -> C) (l : list A) :
  map g (flat_map f l) = flat_map (fun x => map g (f x)) l.
Proof.
  induction l as [|x l IH]; simpl; [done|]. by rewrite map_app, IH.
Qed.

Lemma product_literal_prefix {A} (pre : list A) (pools : list (list A)) :
  Itertools.product (map (fun c => [c]) pre ++ pools)
  = map (app pre) (Itertools.product pools).
Proof.
  induction pre as [|c pre IH]; simpl.
  - by rewrite map_id.
  - rewrite IH, app_nil_r, map_map. done.
Qed.

Lemma product_literal_suffix {A} (suf : list A) (pools : list (list A)) :
  Itertools.product (pools ++ map (fun c => [c]) suf)
  = map (fun t => t ++ suf) (Itertools.product pools).
Proof.
  induction pools as [|p ps IH]; simpl.
  - rewrite <- (app_nil_r (map _ suf)), product_literal_prefix. simpl.
    by rewrite app_nil_r.
  - rewrite IH, flat_map_fmap. apply flat_map_ext. intros x.
    by rewrite !map_map.
Qed.

Lemma token_sets_literal descending (s : str) :
  Forall (fun c => PATTERN_CHARSETS !! c = None) s ->
  map (fun c => PatternSpec.token_set descending (PatternSpec.resolve c)) s
  = map (fun c => [c]) s.
Proof.
  induction 1 as [|c s Hc _ IH]; simpl; [done|].
  rewrite IH. unfold PatternSpec.resolve. by rewrite Hc.
Qed.

(** X3. When no character of the prefix and of the suffix is a pattern token,
    expanding [prefix + pattern + suffix] gives the expansions of the
    pattern, in the same order, each between the unchanged prefix and
    suffix. *)
Theorem generate_from_pattern_literal_affixes (prefix pattern suffix order : str) :
  Forall (fun c => PATTERN_CHARSETS !! c = None) prefix ->
  Forall (fun c => PATTERN_CHARSETS !! c = None) suffix ->
  items (generate_from_pattern (prefix ++ pattern ++ suffix) order)
  = map (fun middle => prefix ++ middle ++ suffix)
      (items (generate_from_pattern pattern order)).
Proof.
  intros Hpre Hsuf. rewrite !generate_from_pattern_spec. simpl.
  unfold PatternSpec.expand. rewrite !map_app.
  rewrite (token_sets_literal _ prefix Hpre), (token_sets_literal _ suffix Hsuf).
  rewrite product_literal_prefix, product_literal_suffix, map_map. done.
Qed.

Lemma generate_from_pattern_literal_affixes_witness :
  items (generate_from_pattern (u "id-" ++ u "1a" ++ u "!") (u "asc"))
  = map (fun middle => u "id-" ++ middle ++ u "!")
      (items (generate_from_pattern (u "1a") (u "asc"))).
Proof.
  apply (generate_from_pattern_literal_affixes (u "id-") (u "1a") (u "!")).
  - repeat constructor.
  - repeat constructor.
Defined.

(** A prefix that contains a token character is expanded like the rest. *)
Example generate_from_pattern_prefix_expanded :
  items (generate_from_pattern (u "A" ++ u "-") (u "asc"))
  = map (fun c => [c] ++ u "-") ascii_uppercase.
Proof. vm_compute. reflexivity. Qed.

(** ** The word list *)

Lemma lstrip_head (s : str) (c : char) :
  head (PyStr.lstrip s) = Some c -> PyStr.isspace c = false.
Proof.
  induction s as [|x s IH]; simpl; [done|].
  destruct (PyStr.isspace x) eqn:E; [done|]. simpl. by intros [= <-].
Qed.

Lemma lstrip_suffix (s : str) : exists k, s = k ++ PyStr.lstrip s.
Proof.
  induction s as [|x s [k IH]]; simpl; [by exists []|].
  destruct (PyStr.isspace x).
  - exists (x :: k). simpl. by f_equal.
  - by exists [].
Qed.

Lemma lstrip_id (s : str) :
  (forall c, head s = Some c -> PyStr.isspace c = false) ->
  PyStr.lstrip s = s.
Proof.
  destruct s as [|x s]; simpl; [done|]. intros H. by rewrite (H x).
Qed.

(** [strip] leaves no white space at either end. *)
Lemma strip_ends (s : str) :
  (forall c, head (PyStr.strip s) = Some c -> PyStr.isspace c = false)
  /\ (forall c, last (PyStr.strip s) = Some c -> PyStr.isspace c = false).
Proof.
  unfold PyStr.strip.
  pose proof (lstrip_head s) as Ha.
  set (a := PyStr.lstrip s) in *.
  pose proof (lstrip_head (reverse a)) as Hb.
  destruct (lstrip_suffix (reverse a)) as [k Hk].
  set (b := PyStr.lstrip (reverse a)) in *.
  split; intros c Hc.
  - apply Ha. apply (f_equal reverse) in Hk.
    rewrite reverse_involutive, reverse_app in Hk. rewrite Hk, head_app.
    by rewrite Hc.
  - apply Hb. by rewrite last_reverse in Hc.
Qed.

Lemma strip_idempotent (s : str) : PyStr.strip (PyStr.strip s) = PyStr.strip s.
Proof.
  destruct (strip_ends s) as [Hh Hl].
  set (t := PyStr.strip s) in *. unfold PyStr.strip at 1.
  rewrite (lstrip_id t Hh), lstrip_id, reverse_involutive; [done|].
  intros c Hc. apply Hl. by rewrite <- head_reverse.
Qed.

Lemma lstrip_spaces (s : str) :
  exists before,
    s = before ++ PyStr.lstrip s
    /\ Forall (fun c => PyStr.isspace c = true) before.
Proof.
  induction s as [|x s (k & IH & Hk)]; simpl; [by exists []|].
  destruct (PyStr.isspace x) eqn:Hx.
  - exists (x :: k). split; [simpl; by f_equal | by constructor].
  - by exists [].
Qed.

(** [strip] removes white space from both ends and nothing else. *)
Lemma strip_spaces (s : str) :
  exists before after,
    s = before ++ PyStr.strip s ++ after
    /\ Forall (fun c => PyStr.isspace c = true) before
    /\ Forall (fun c => PyStr.isspace c = true) after.
Proof.
  unfold PyStr.strip.
  destruct (lstrip_spaces s) as (before & Hs & Hbefore).
  destruct (lstrip_spaces (reverse (PyStr.lstrip s))) as (k & Hk & Hspaces).
  exists before, (reverse k). split_and!.
  - rewrite <- reverse_app, <- Hk, reverse_involutive. done.
  - done.
  - by apply Forall_reverse.
Qed.

Lemma lstrip_all_spaces (s : str) :
  Forall (fun c => PyStr.isspace c = true) s -> PyStr.lstrip s = [].
Proof. induction 1 as [|x s Hx _ IH]; simpl; [done|]. by rewrite Hx. Qed.

(** A line is blank, that is stripped to the empty string, exactly when it
    holds white space only. *)
Lemma strip_blank (s : str) :
  PyStr.strip s = [] <-> Forall (fun c => PyStr.isspace c = true) s.
Proof.
  split.
  - intros H. destruct (strip_spaces s) as (before & after & Hs & Hb & Ha).
    rewrite H in Hs. rewrite Hs. simpl. by apply Forall_app.
  - intros H. unfold PyStr.strip. by rewrite (lstrip_all_spaces s H).
Qed.

(** X1. [read_wordlist] yields one word for every line of the file that
    is not made of white space only, in the order of the file and as
    often as such lines occur.  The word is the line without the white
    space at its two ends: it is not empty and neither starts nor ends
    with white space.  When opening or reading the file raises, the
    generator raises the same exception after the words of the lines read
    so far, and otherwise it ends normally. *)
Theorem read_wordlist_words (path : Args.wordlist_file) :
  let out := read_wordlist path in
  fault out = Args.wl_error path
  /\ Forall2
       (fun word line =>
          word <> []
          /\ (forall c, head word = Some c -> PyStr.isspace c = false)
          /\ (forall c, last word = Some c -> PyStr.isspace c = false)
          /\ exists before after,
               line = before ++ word ++ after
               /\ Forall (fun c => PyStr.isspace c = true) before
               /\ Forall (fun c => PyStr.isspace c = true) after)
       (items out)
       (filter (fun line => ~ Forall (fun c => PyStr.isspace c = true) line)
          (Args.wl_lines path)).
Proof.
  simpl. split; [done|].
  induction (Args.wl_lines path) as [|line lines IH]; simpl; [constructor|].
  rewrite !filter_cons.
  destruct (PyStr.strip line) as [|c word] eqn:Hstrip; simpl.
  - apply (proj1 (strip_blank line)) in Hstrip.
    by rewrite decide_False by (intros H; by apply H).
  - rewrite decide_True.
    + constructor; [|done]. rewrite <- Hstrip. split_and!.
      * by rewrite Hstrip.
      * apply strip_ends.
      * apply strip_ends.
      * apply strip_spaces.
    + intros Hblank%strip_blank. by rewrite Hblank in Hstrip.
Qed.

Example read_wordlist_repeats :
  read_wordlist
    {| Args.wl_exists := true;
       Args.wl_lines :=
         [[32; 97; 32; 98; 10]%N; [10]%N; [97; 32; 98; 10]%N; [9; 32; 10]%N];
       Args.wl_error := Some (Exn OtherException "Input/output error") |}
  = Stream [u "a b"; u "a b"] (Some (Exn OtherException "Input/output error")).
Proof. vm_compute. reflexivity. Qed.

(** * Further properties of the search *)

Section search_results.
Variable test : str -> result bool.

Lemma first_hit_Some_Ok (l : list str) (p : str) :
  SearchSpec.first_hit test l = Some (Ok p) -> p ∈ l /\ test p = Ok true.
Proof.
  induction l as [|q l IH]; simpl; [done|].
  destruct (test q) as [[]|e] eqn:Hq.
  - intros [= <-]. split; [left | done].
  - intros [Hin Hp]%IH. split; [by right | done].
  - done.
Qed.

Lemma first_hit_None (l : list str) :
  SearchSpec.first_hit test l = None -> Forall (fun q => test q = Ok false) l.
Proof.
  induction l as [|q l IH]; simpl; [constructor|].
  destruct (test q) as [[]|e] eqn:Hq; try done. constructor; auto.
Qed.

(** A loop that stops on a password has just tested it. *)
Lemma scan_found_last (passwords : list str) (r : run) (p : str) :
  (scan test passwords r).2 = Some (Ok p) ->
  last (tested (scan test passwords r).1) = Some p.
Proof.
  revert r. induction passwords as [|q ps IH]; intros r; simpl; [done|].
  destruct (decide (q ∈ seen r)); [apply IH|].
  destruct (test q) as [[]|e]; simpl.
  - intros [= <-]. apply last_snoc.
  - apply IH.
  - done.
Qed.

Lemma search_found_last (streams : list stream) (r : run) (p : str) :
  (search test streams r).2 = Ok (Some p) ->
  last (tested (search test streams r).1) = Some p.
Proof.
  revert r. induction streams as [|s rest IH]; intros r; simpl; [done|].
  pose proof (scan_found_last (items s) r) as Hscan.
  destruct (scan test (items s) r) as [r' [[q|e]|]]; simpl in *.
  - intros [= <-]. by apply Hscan.
  - done.
  - destruct (fault s); [done | apply IH].
Qed.

(** A loop that runs to the end has every password it was given in [seen]. *)
Lemma scan_none_seen (passwords : list str) (r : run) :
  (scan test passwords r).2 = None ->
  seen (scan test passwords r).1 = seen r ∪ list_to_set passwords.
Proof.
  revert r. induction passwords as [|q ps IH]; intros r; simpl.
  - intros _. by rewrite (right_id_L ∅ (∪)).
  - destruct (decide (q ∈ seen r)) as [Hq|Hq].
    + intros H. rewrite (IH r H). apply set_eq. intros x.
      rewrite !elem_of_union, elem_of_singleton. intuition (subst; auto).
    + destruct (test q) as [[]|e]; simpl; try done.
      intros H. rewrite (IH _ H). simpl. apply set_eq. intros x.
      rewrite !elem_of_union, elem_of_singleton. tauto.
Qed.

Lemma search_none_seen (streams : list stream) (r : run) :
  (search test streams r).2 = Ok None ->
  seen (search test streams r).1
  = seen r ∪ list_to_set (items (SearchSpec.merged streams))
  /\ fault (SearchSpec.merged streams) = None.
Proof.
  revert r. induction streams as [|s rest IH]; intros r; simpl.
  - intros _. by rewrite (right_id_L ∅ (∪)).
  - pose proof (scan_none_seen (items s) r) as Hscan.
    destruct (scan test (items s) r) as [r' [[q|e]|]]; simpl in *; try done.
    destruct (fault s) as [e|]; [done|]. simpl. intros H.
    destruct (IH r' H) as [Hseen Hfault]. split; [|done].
    rewrite Hseen, Hscan by done. rewrite list_to_set_app_L.
    by rewrite (assoc_L (∪)).
Qed.

(** [progress] holds one line for every 500th attempt. *)
Lemma scan_cadence (passwords : list str) (r : run) :
  consistent r -> progress r = cadence (tested r) ->
  progress (scan test passwords r).1 = cadence (tested (scan test passwords r).1).
Proof.
  revert r. induction passwords as [|q ps IH]; intros r Hc Hp; simpl; [done|].
  destruct (decide (q ∈ seen r)) as [Hq|Hq]; [by apply IH|].
  set (r1 := log_attempt q _).
  assert (Hc1 : consistent r1) by (by apply consistent_step).
  assert (Hp1 : progress r1 = cadence (tested r1)).
  { destruct Hc as (_ & Hn & _). unfold r1, log_attempt, cadence.
    cbn [progress tested attempted].
    rewrite imap_app, filter_app. fold (cadence (tested r)).
    rewrite <- Hp, Hn. cbn [imap]. rewrite Nat.add_0_r.
    rewrite filter_cons, filter_nil. cbn [fst].
    destruct (S (length (tested r)) mod 500 =? 0)%nat eqn:E.
    - by rewrite decide_True.
    - rewrite decide_False by done. by rewrite app_nil_r. }
  destruct (test q) as [[]|e]; simpl; [done | by apply IH | done].
Qed.

Lemma search_cadence (streams : list stream) (r : run) :
  consistent r -> progress r = cadence (tested r) ->
  progress (search test streams r).1
  = cadence (tested (search test streams r).1).
Proof.
  revert r. induction streams as [|s rest IH]; intros r Hc Hp; simpl; [done|].
  pose proof (scan_cadence (items s) r Hc Hp) as Hscan.
  destruct (scan_tested test (items s) r) as (_ & _ & _ & Hc').
  specialize (Hc' Hc).
  destruct (scan test (items s) r) as [r' [[q|e]|]]; simpl in *; try done.
  destruct (fault s); [done|]. by apply IH.
Qed.

End search_results.

(** ** What a result of [crack_target] means *)

Lemma crack_target_tests_once_aux
  (w : World) (target_type : str) (args : Args.t) :
  let r := (crack_target_run w target_type args).1 in
  NoDup (tested r)
  /\ seen r = list_to_set (tested r)
  /\ attempted r = length (tested r).
Proof.
  unfold crack_target_run.
  destruct (search_tested (fun p => try_password w p target_type)
              (candidate_streams w args) start) as (k & _ & _ & Hc).
  destruct (Hc consistent_start) as (Hnd & Hn & Hs). done.
Qed.

(** X4. A password that [crack_target] returns was accepted by the tester; it
    is one of the candidates of the configured strategies and the last
    password the run tested. *)
Theorem crack_target_found_sound
  (w : World) (target_type : str) (args : Args.t) (p : str) :
  crack_target w target_type args = Ok (Some p) ->
  try_password w p target_type = Ok true
  /\ p ∈ items (SearchSpec.merged (candidate_streams w args))
  /\ last (tested (crack_target_run w target_type args).1) = Some p.
Proof.
  intros H. split_and!.
  - rewrite crack_target_outcome in H. unfold SearchSpec.outcome in H.
    destruct (SearchSpec.first_hit _ _) as [[q|e]|] eqn:Hhit.
    + injection H as ->. by apply first_hit_Some_Ok in Hhit as [_ ?].
    + done.
    + by destruct (fault _).
  - rewrite crack_target_outcome, <- candidate_streams_sources in H.
    unfold SearchSpec.outcome in H.
    destruct (SearchSpec.first_hit _ _) as [[q|e]|] eqn:Hhit.
    + injection H as ->. by apply first_hit_Some_Ok in Hhit as [? _].
    + done.
    + by destruct (fault _).
  - by apply search_found_last.
Qed.

Lemma crack_target_found_sound_witness :
  let w := Sample.world (u "aB") in
  let args :=
    Sample.with_wordlist [u "zz"; u "aB"]
      (Sample.with_seed (u "ab") (Sample.defaults (u ".pdf"))) in
  try_password w (u "aB") (u "pdf") = Ok true
  /\ u "aB" ∈ items (SearchSpec.merged (candidate_streams w args))
  /\ last (tested (crack_target_run w (u "pdf") args).1) = Some (u "aB").
Proof.
  apply (crack_target_found_sound (Sample.world (u "aB")) (u "pdf")
           (Sample.with_wordlist [u "zz"; u "aB"]
              (Sample.with_seed (u "ab") (Sample.defaults (u ".pdf"))))).
  vm_compute. reflexivity.
Defined.

(** X5. When [crack_target] returns [None], no source raised, the tester
    rejected every candidate of every source, [seen] is the set of all
    these candidates, and [attempted] is the number of distinct ones. *)
Theorem crack_target_exhausted
  (w : World) (target_type : str) (args : Args.t) :
  crack_target w target_type args = Ok None ->
  let r := (crack_target_run w target_type args).1 in
  let candidates := SearchSpec.merged (candidate_streams w args) in
  fault candidates = None
  /\ Forall (fun q => try_password w q target_type = Ok false)
       (items candidates)
  /\ seen r = list_to_set (items candidates)
  /\ attempted r = size (list_to_set (items candidates) : gset str).
Proof.
  intros H. cbv zeta.
  destruct (crack_target_tests_once_aux w target_type args)
    as (Hnd & Hs & Hn).
  assert (Hall : Forall (fun q => try_password w q target_type = Ok false)
                   (items (SearchSpec.merged (candidate_streams w args)))).
  { rewrite crack_target_outcome, <- candidate_streams_sources in H.
    unfold SearchSpec.outcome in H.
    destruct (SearchSpec.first_hit _ _) as [[q|e]|] eqn:Hhit;
      [done|done|]. by apply first_hit_None in Hhit. }
  unfold crack_target, crack_target_run in *.
  destruct (search_none_seen _ _ _ H) as [Hseen Hfault].
  simpl in Hseen. rewrite (left_id_L ∅ (∪)) in Hseen.
  split_and!; [done|done|done|].
  rewrite Hn, <- Hseen, Hs. symmetry. by apply size_list_to_set.
Qed.

Lemma crack_target_exhausted_witness :
  let w := Sample.world (u "none") in
  let args :=
    Sample.with_wordlist [u "zz"; u "aB"]
      (Sample.with_seed (u "ab") (Sample.defaults (u ".pdf"))) in
  let r := (crack_target_run w (u "pdf") args).1 in
  let candidates := SearchSpec.merged (candidate_streams w args) in
  fault candidates = None
  /\ Forall (fun q => try_password w q (u "pdf") = Ok false) (items candidates)
  /\ seen r = list_to_set (items candidates)
  /\ attempted r = size (list_to_set (items candidates) : gset str).
Proof.
  apply (crack_target_exhausted (Sample.world (u "none")) (u "pdf")
           (Sample.with_wordlist [u "zz"; u "aB"]
              (Sample.with_seed (u "ab") (Sample.defaults (u ".pdf"))))).
  vm_compute. reflexivity.
Defined.

(** ** Progress lines *)

Lemma cadence_snoc (l : list str) (p : str) :
  cadence (l ++ [p])
  = cadence l
      ++ (if (S (length l) mod 500 =? 0)%nat then [(S (length l), p)] else []).
Proof.
  unfold cadence. rewrite imap_app, filter_app. cbn [imap].
  rewrite Nat.add_0_r, filter_cons, filter_nil. cbn [fst].
  destruct (S (length l) mod 500 =? 0)%nat eqn:E.
  - by rewrite decide_True.
  - by rewrite decide_False.
Qed.

Lemma div_500_succ (n : nat) :
  (S n / 500 = n / 500 + (if S n mod 500 =? 0 then 1 else 0))%nat.
Proof.
  pose proof (Nat.div_mod_eq n 500) as H1.
  pose proof (Nat.div_mod_eq (S n) 500) as H2.
  pose proof (Nat.mod_upper_bound n 500) as H3.
  pose proof (Nat.mod_upper_bound (S n) 500) as H4.
  destruct (S n mod 500 =? 0)%nat eqn:E.
  - apply Nat.eqb_eq in E. lia.
  - apply Nat.eqb_neq in E. lia.
Qed.

Lemma length_cadence (l : list str) : length (cadence l) = (length l / 500)%nat.
Proof.
  induction l as [|p l IH] using rev_ind; [done|].
  rewrite cadence_snoc, !length_app, IH. simpl (length [p]).
  rewrite Nat.add_1_r, div_500_succ.
  destruct (S (length l) mod 500 =? 0)%nat; simpl; lia.
Qed.

Lemma elem_of_cadence (l : list str) (n : nat) (p : str) :
  (n, p) ∈ cadence l
  <-> (0 < n)%nat /\ (n mod 500 = 0)%nat /\ l !! (n - 1)%nat = Some p.
Proof.
  unfold cadence. rewrite list_elem_of_filter, elem_of_lookup_imap. simpl.
  rewrite Nat.eqb_eq. split.
  - intros (Hmod & i & q & [= -> ->] & Hq).
    rewrite Nat.sub_succ, Nat.sub_0_r. split_and!; [lia | done | done].
  - intros (Hn & Hmod & Hp). split; [done|].
    exists (n - 1)%nat, p. split; [f_equal; lia | done].
Qed.

(** X6. After any run, [progress] holds one line for every 500 passwords
    tested and no other: line [k] reports the count [500 * k] and the
    password tested at that count. *)
Theorem crack_target_progress
  (w : World) (target_type : str) (args : Args.t) :
  let r := (crack_target_run w target_type args).1 in
  progress r = cadence (tested r)
  /\ length (progress r) = (attempted r / 500)%nat
  /\ (forall n p,
         (n, p) ∈ progress r
         <-> (0 < n)%nat /\ (n mod 500 = 0)%nat
             /\ tested r !! (n - 1)%nat = Some p).
Proof.
  cbv zeta.
  destruct (crack_target_tests_once_aux w target_type args) as (_ & _ & Hn).
  assert (Hp : progress (crack_target_run w target_type args).1
               = cadence (tested (crack_target_run w target_type args).1)).
  { unfold crack_target_run. apply search_cadence; [apply consistent_start|done]. }
  split_and!.
  - done.
  - by rewrite Hp, Hn, length_cadence.
  - intros n p. rewrite Hp. apply elem_of_cadence.
Qed.

(** ** A seed that cannot be varied *)

Lemma options_of_Raise (c : char) (e : exn) :
  options_of c = Raise e ->
  e = Exn ValueError "invalid literal for int() with base 10".
Proof.
  unfold options_of, PyStr.int.
  destruct (PyStr.isalpha c), (PyStr.isdigit c), (PyStr.isdecimal c);
    simpl; by intros [=].
Qed.

Lemma options_of_superscript (c : char) :
  c ∈ [178%N; 179%N; 185%N] ->
  options_of c = Raise (Exn ValueError "invalid literal for int() with base 10").
Proof.
  intros H. repeat (apply elem_of_cons in H as [->|H]; [by vm_compute|]).
  by apply elem_of_nil in H.
Qed.

Lemma build_pools_superscript (seed : str) (c : char) :
  c ∈ seed -> c ∈ [178%N; 179%N; 185%N] ->
  build_pools seed
  = Raise (Exn ValueError "invalid literal for int() with base 10").
Proof.
  intros Hin Hc. induction seed as [|x seed IH]; [by apply elem_of_nil in Hin|].
  simpl. destruct (options_of x) as [o|e] eqn:Ho; simpl.
  - apply elem_of_cons in Hin as [->|Hin].
    + by rewrite options_of_superscript in Ho.
    + by rewrite IH.
  - by rewrite (options_of_Raise x e Ho).
Qed.

(** X7. A seed that contains a superscript digit (U+00B2, U+00B3 or U+00B9)
    makes [crack_target] raise [ValueError] before it tests anything,
    whatever the cap on the seed variants and whatever the other
    strategies are. *)
Theorem crack_target_bad_seed
  (w : World) (target_type : str) (args : Args.t) (seed : str) (c : char) :
  Args.seed args = Some seed ->
  c ∈ seed ->
  c ∈ [178%N; 179%N; 185%N] ->
  crack_target_run w target_type args
  = (start, Raise (Exn ValueError "invalid literal for int() with base 10")).
Proof.
  intros Hseed Hin Hc. unfold crack_target_run.
  rewrite candidate_streams_sources. unfold Priority.sources, Priority.seed_source.
  rewrite Hseed. destruct seed as [|x seed]; [by apply elem_of_nil in Hin|].
  unfold candidate_variants.
  rewrite (build_pools_superscript (x :: seed) c Hin Hc).
  unfold raises. rewrite limited_empty. done.
Qed.

Lemma crack_target_bad_seed_witness :
  crack_target_run (Sample.world (u "secret")) (u "pdf")
    (Sample.with_wordlist [u "secret"]
       (Sample.with_seed (u "x" ++ [178%N]) (Sample.defaults (u ".pdf"))))
  = (start, Raise (Exn ValueError "invalid literal for int() with base 10")).
Proof.
  apply (crack_target_bad_seed _ _ _ (u "x" ++ [178%N]) 178%N).
  - reflexivity.
  - right. left.
  - left.
Defined.

(** ** Pattern before length *)

(** X8. When a pattern, a prefix or a suffix is given, the length and the
    charset play no part: the run is the same for every value of both. *)
Theorem crack_target_pattern_ignores_length
  (w : World) (target_type : str) (args : Args.t)
  (n : option Z) (charset : str) :
  Priority.pattern_supplied args = true ->
  crack_target_run w target_type (Sample.with_length n charset args)
  = crack_target_run w target_type args.
Proof.
  intros Hpat. unfold crack_target_run. rewrite !candidate_streams_sources.
  unfold Priority.sources, Priority.pattern_source, Priority.length_source.
  assert (Hpat' :
    Priority.pattern_supplied (Sample.with_length n charset args) = true)
    by done.
  rewrite Hpat, Hpat'. done.
Qed.

Lemma crack_target_pattern_ignores_length_witness :
  crack_target_run (Sample.world (u "x7")) (u "pdf")
    (Sample.with_length (Some (-1)) []
       (with_pattern (u "x") (u "1") (Sample.defaults (u ".pdf"))))
  = crack_target_run (Sample.world (u "x7")) (u "pdf")
      (with_pattern (u "x") (u "1") (Sample.defaults (u ".pdf"))).
Proof.
  apply crack_target_pattern_ignores_length. reflexivity.
Defined.

(** ** Candidates are never empty, and what [main] makes of the result *)











(** * Further properties of the testers *)

(** X10. Whatever the library raises while a PDF or a ZIP archive is opened
    and read, short of [KeyboardInterrupt] or [SystemExit], the tester
    answers false: no exception of class [Exception] leaves
    [try_password] for these types.  For a RAR archive the only such
    exceptions that leave it are the two that report a missing tool. *)
Theorem testers_absorb_exceptions (w : World) (password : str) :
  match try_password w password (u "pdf") with
  | Raise e => is_Exception e = false
  | Ok _ => True
  end
  /\ match try_password w password (u "zip") with
     | Raise e => is_Exception e = false
     | Ok _ => True
     end
  /\ match try_password w password (u "rar") with
     | Raise e => is_Exception e = false \/ tool_missing w password (u "rar") e
     | Ok _ => True
     end.
Proof.
  split_and!.
  - change (try_password w password (u "pdf")) with (try_pdf_password w password).
    unfold try_pdf_password.
    destruct (pdf_decrypt w password) as [b|e]; [done|].
    by destruct (is_Exception e) eqn:E.
  - change (try_password w password (u "zip")) with (try_zip_password w password).
    unfold try_zip_password.
    destruct (zip_read w password) as [b|e]; [done|].
    destruct (isinstance e _); [done|]. by destruct (is_Exception e) eqn:E.
  - change (try_password w password (u "rar")) with (try_rar_password w password).
    unfold try_rar_password.
    destruct (rarfile_imported w) eqn:Himp; simpl.
    + destruct (rar_read w password) as [b|e] eqn:Hread; [done|].
      destruct (isinstance e [BadRarFile; RarWrongPassword; RarCRCError]);
        [done|].
      destruct (isinstance e [RarCannotExec]) eqn:Hexec.
      * right. eapply unrar_missing; [done | exact Hread |].
        unfold isinstance in Hexec. apply bool_decide_eq_true in Hexec.
        by apply list_elem_of_singleton in Hexec.
      * destruct (is_Exception e) eqn:E; [done | by left].
    + right. by apply rarfile_missing.
Qed.

Lemma crack_target_raises
  (w : World) (target_type : str) (args : Args.t)
  (pre post : list str) (p : str) (e : exn) :
  items (SearchSpec.merged (candidate_streams w args)) = pre ++ p :: post ->
  Forall (fun q => try_password w q target_type = Ok false) pre ->
  try_password w p target_type = Raise e ->
  crack_target w target_type args = Raise e.
Proof.
  intros Hitems Hpre Hp.
  rewrite crack_target_outcome, <- candidate_streams_sources.
  unfold SearchSpec.outcome. rewrite Hitems.
  by rewrite (first_hit_raised _ pre post p e).
Qed.

(** X11. The 7z tester names four exception classes.  Any other exception
    raised while the archive is read leaves [try_password] as it is, and
    [crack_target] stops with it at that candidate instead of going on to
    the next one. *)
Theorem try_7z_password_unlisted_exception
  (w : World) (args : Args.t) (pre post : list str) (p : str) (e : exn) :
  py7zr_imported w = true ->
  sevenzip_read w p = Raise e ->
  exn_cls e ∉ [PasswordRequired; Bad7zFile;
               UnsupportedCompressionMethodError; RuntimeError] ->
  items (SearchSpec.merged (candidate_streams w args)) = pre ++ p :: post ->
  Forall (fun q => try_password w q (u "7z") = Ok false) pre ->
  try_password w p (u "7z") = Raise e
  /\ crack_target w (u "7z") args = Raise e.
Proof.
  intros Himp Hread Hcls Hitems Hpre.
  assert (Hp : try_password w p (u "7z") = Raise e).
  { change (try_password w p (u "7z")) with (try_7z_password w p).
    unfold try_7z_password. rewrite Himp, Hread. simpl.
    unfold isinstance.
    rewrite !bool_decide_eq_false_2; [done|..];
      intros H; apply Hcls;
      repeat (apply elem_of_cons in H as [H|H];
              [rewrite H; repeat first [by left | right] |]);
      by apply elem_of_nil in H. }
  split; [done|]. by eapply crack_target_raises.
Qed.

Lemma try_7z_password_unlisted_exception_witness :
  let e := Exn OtherException "Corrupt input data" in
  let args :=
    Sample.with_wordlist [u "first"; u "second"] (Sample.defaults (u ".7z")) in
  try_password world_decompressor_error (u "first") (u "7z") = Raise e
  /\ crack_target world_decompressor_error (u "7z") args = Raise e.
Proof.
  apply (try_7z_password_unlisted_exception world_decompressor_error
           (Sample.with_wordlist [u "first"; u "second"]
              (Sample.defaults (u ".7z")))
           [] [u "second"] (u "first")).
  - reflexivity.
  - reflexivity.
  - apply (bool_decide_unpack _). vm_compute. exact I.
  - vm_compute. reflexivity.
  - constructor.
Defined.

(** * Further properties of the seed variants *)

Lemma sorted_NoDup (options : gset str) : NoDup (sorted options).
Proof.
  unfold sorted. rewrite merge_sort_Permutation. apply NoDup_elements.
Qed.

Lemma build_pools_NoDup (seed : str) (pools : list (list str)) :
  build_pools seed = Ok pools -> Forall NoDup pools.
Proof.
  revert pools. induction seed as [|c seed IH]; intros pools; simpl.
  - intros [= <-]. constructor.
  - destruct (options_of c) as [o|]; simpl; [|done].
    destruct (build_pools seed) as [ps|]; simpl; [|done].
    intros [= <-]. constructor; [apply sorted_NoDup | by apply IH].
Qed.

Lemma join_singletons_inj (a b : list str) :
  Forall (fun s => length s = 1%nat) a ->
  Forall (fun s => length s = 1%nat) b ->
  join a = join b -> a = b.
Proof.
  unfold join. intros Ha. revert b.
  induction Ha as [|x a Hx _ IH]; intros b Hb; destruct Hb as [|y b Hy Hb];
    simpl; intros Heq.
  - done.
  - destruct y; [done|]. done.
  - destruct x; [done|]. done.
  - destruct x as [|x0 [|]], y as [|y0 [|]]; try done.
    simpl in Heq. injection Heq as -> Heq. f_equal. by apply IH.
Qed.

(** X12. On a seed of ASCII characters no variant is yielded twice. *)
Theorem candidate_variants_ascii_distinct (seed : str) :
  Forall (fun c => (c < 128)%N) seed ->
  NoDup (items (candidate_variants seed)).
Proof.
  intros (pools & Hpools & Hall)%build_pools_ascii.
  unfold candidate_variants. rewrite Hpools. simpl.
  assert (Hlen : forall combo, combo ∈ Itertools.product pools ->
                   Forall (fun s => length s = 1%nat) combo).
  { intros combo Hcombo%elem_of_product. clear Hpools.
    revert combo Hcombo.
    induction Hall as [|c pool seed pools [_ Hl] _ IH];
      intros combo Hcombo; inversion Hcombo; subst; constructor.
    - rewrite Forall_forall in Hl. by apply Hl.
    - by apply IH. }
  apply NoDup_fmap_2_strong.
  - intros a b Ha Hb. apply join_singletons_inj; by apply Hlen.
  - apply NoDup_product. by eapply build_pools_NoDup.
Qed.

Lemma candidate_variants_ascii_distinct_witness :
  NoDup (items (candidate_variants (u "Pa55"))).
Proof.
  apply candidate_variants_ascii_distinct.
  apply Forall_forall. intros c Hc.
  repeat (apply elem_of_cons in Hc as [->|Hc]; [reflexivity|]).
  by apply elem_of_nil in Hc.
Defined.

Lemma candidate_variants_ascii_witness :
  fault (candidate_variants (u "Pa55")) = None
  /\ u "Pa55" ∈ items (candidate_variants (u "Pa55"))
  /\ Forall (fun s => length s = length (u "Pa55"))
       (items (candidate_variants (u "Pa55"))).
Proof.
  apply candidate_variants_ascii.
  apply Forall_forall. intros c Hc.
  repeat (apply elem_of_cons in Hc as [->|Hc]; [reflexivity|]).
  by apply elem_of_nil in Hc.
Defined.

(** * Runs without a strategy *)



(** X15. The warning of [main] looks at the pattern, the length, the word list
    and the seed only.  When it is printed the only source a run can
    still have is the expansion of the prefix and suffix; when it is not
    printed the run may still be without any source, as with a word list
    that does not exist. *)
Theorem no_strategy_warning_sources (w : World) (args : Args.t) :
  no_strategy_warning args = true ->
  candidate_streams w args = Priority.pattern_source args
  /\ (Args.pattern_prefix args = [] -> Args.pattern_suffix args = [] ->
      candidate_streams w args = []).
Proof.
  unfold no_strategy_warning. intros H.
  repeat (apply andb_true_iff in H as [H ?]).
  assert (Hstreams : candidate_streams w args = Priority.pattern_source args).
  { rewrite candidate_streams_sources.
    unfold Priority.sources, Priority.seed_source, Priority.length_source,
      Priority.wordlist_source.
    destruct (Args.seed args) as [[|c seed]|]; try done;
      destruct (Args.wordlist args); try done;
      destruct (Args.length args) as [n|]; simpl in *;
      try destruct (n =? 0); try done;
      destruct (Priority.pattern_supplied args); simpl;
      by rewrite ?app_nil_r. }
  split; [done|]. intros Hpre Hsuf. rewrite Hstreams.
  unfold Priority.pattern_source, Priority.pattern_supplied.
  rewrite Hpre, Hsuf. simpl.
  destruct (truthy_opt_str (Args.pattern args)); done.
Qed.

Lemma no_strategy_warning_sources_witness :
  let w := Sample.world (u "secret") in
  let args := with_pattern (u "x") [] (Sample.defaults (u ".pdf")) in
  candidate_streams w args = Priority.pattern_source args
  /\ (Args.pattern_prefix args = [] -> Args.pattern_suffix args = [] ->
      candidate_streams w args = []).
Proof.
  apply (no_strategy_warning_sources (Sample.world (u "secret"))
           (with_pattern (u "x") [] (Sample.defaults (u ".pdf")))).
  reflexivity.
Defined.

Example no_strategy_warning_mismatch :
  let with_prefix := with_pattern (u "x") [] (Sample.defaults (u ".pdf")) in
  let missing_wordlist :=
    {| Args.target := {| suffix := u ".pdf"; exists_ := true |};
       Args.pattern := None; Args.pattern_prefix := [];
       Args.pattern_suffix := []; Args.pattern_order := u "asc";
       Args.length := None; Args.charset := DEFAULT_CHARSET;
       Args.seed := None;
       Args.wordlist :=
         Some {| Args.wl_exists := false; Args.wl_lines := [];
                 Args.wl_error := None |};
       Args.max_candidates := Some 250000;
       Args.seed_variants := Some 1000; Args.type := None |} in
  (no_strategy_warning with_prefix = true
   /\ map items (candidate_streams (Sample.world []) with_prefix) = [[u "x"]])
  /\ (no_strategy_warning missing_wordlist = false
      /\ candidate_streams (Sample.world []) missing_wordlist = []).
Proof. vm_compute. done. Qed.
